(** * git-queue: the queue state machine over a commit log

    A shallow embedding of the git-queue action's core
    ([queue.ts], [commit-options.ts] and the stored-message model) together
    with a small model of the version-control collaborator it drives.

    Strings are sequences of code units; [ascii] covers the units below 256,
    which is enough for the subject prefixes, the whitespace set of [trim]
    restricted to that range, and the error texts. *)

From Stdlib Require Import String Ascii List Bool Arith Lia.
Import ListNotations.
Local Open Scope list_scope.
Local Open Scope string_scope.

(* ------------------------------------------------------------------ *)
(** ** String primitives of the host language *)

Module JsString.

(** [s.startsWith(p)] *)
Fixpoint startsWith (s p : string) : bool :=
  match p with
  | EmptyString => true
  | String c p' =>
      match s with
      | EmptyString => false
      | String d s' => Ascii.eqb d c && startsWith s' p'
      end
  end.

(** [s.endsWith(p)]: [p] is [s] itself or a suffix of its tail. *)
Fixpoint endsWith (s p : string) : bool :=
  String.eqb s p ||
  match s with
  | EmptyString => false
  | String _ s' => endsWith s' p
  end.

(** [s.includes(p)]: [p] starts at some position of [s]. *)
Fixpoint includes (s p : string) : bool :=
  startsWith s p ||
  match s with
  | EmptyString => false
  | String _ s' => includes s' p
  end.

(** White space as [trim] sees it, for code units below 256:
    TAB, LF, VT, FF, CR, SPACE and NBSP. *)
Definition isWhiteSpace (c : ascii) : bool :=
  let n := nat_of_ascii c in
  ((9 <=? n) && (n <=? 13) || (n =? 32) || (n =? 160))%nat.

Fixpoint trimStart (s : string) : string :=
  match s with
  | EmptyString => EmptyString
  | String c s' => if isWhiteSpace c then trimStart s' else s
  end.

Fixpoint trimEnd (s : string) : string :=
  match s with
  | EmptyString => EmptyString
  | String c s' =>
      match trimEnd s' with
      | EmptyString => if isWhiteSpace c then EmptyString else String c EmptyString
      | t => String c t
      end
  end.

(** [s.trim()] *)
Definition trim (s : string) : string := trimEnd (trimStart s).

(** Every code unit of [s] is white space. *)
Fixpoint allWhiteSpace (s : string) : bool :=
  match s with
  | EmptyString => true
  | String c s' => isWhiteSpace c && allWhiteSpace s'
  end.

(** First and last code unit, when there is one. *)
Definition first (s : string) : option ascii :=
  match s with
  | EmptyString => None
  | String c _ => Some c
  end.

Fixpoint last (s : string) : option ascii :=
  match s with
  | EmptyString => None
  | String c EmptyString => Some c
  | String _ s' => last s'
  end.

Definition edgeIsWhiteSpace (o : option ascii) : bool :=
  match o with
  | None => false
  | Some c => isWhiteSpace c
  end.

(** The code unit [c] occurs in [s]. *)
Fixpoint occurs (c : ascii) (s : string) : bool :=
  match s with
  | EmptyString => false
  | String d s' => Ascii.eqb d c || occurs c s'
  end.

(** Hexadecimal digits, the alphabet of commit identifiers. *)
Definition isHexDigit (c : ascii) : bool :=
  let n := nat_of_ascii c in
  ((48 <=? n) && (n <=? 57) || (97 <=? n) && (n <=? 102)
   || (65 <=? n) && (n <=? 70))%nat.

Fixpoint isHex (s : string) : bool :=
  match s with
  | EmptyString => true
  | String c s' => isHexDigit c && isHex s'
  end.

End JsString.
Import JsString.

(* ------------------------------------------------------------------ *)
(** ** Errors and outcomes *)

(** A thrown [Error]; only its [message] is ever inspected. *)
Inductive Error : Type := mkError (text : string).

Definition error_message (e : Error) : string :=
  match e with mkError t => t end.

(** Result of a call: a value, or a thrown error. *)
Inductive Outcome (A : Type) : Type :=
| Return (a : A)
| Throw (e : Error).
Arguments Return {A} a.
Arguments Throw {A} e.

Definition isReturn {A} (o : Outcome A) : bool :=
  match o with Return _ => true | Throw _ => false end.

(** [xs.map(f)] where [f] may throw: the first throw, in order, wins. *)
Fixpoint mapOutcome {A B} (f : A -> Outcome B) (xs : list A) : Outcome (list B) :=
  match xs with
  | [] => Return []
  | x :: xs' =>
      match f x with
      | Throw e => Throw e
      | Return y =>
          match mapOutcome f xs' with
          | Throw e => Throw e
          | Return ys => Return (y :: ys)
          end
      end
  end.

(* ------------------------------------------------------------------ *)
(** ** Commits as the log lists them *)

(** simple-git's [DefaultLogFields]. *)
Record DefaultLogFields : Type := mkLogFields {
  hash : string;
  date : string;
  message : string;
  refs : string;
  body : string;
  author_name : string;
  author_email : string
}.

(** [Commit]: what a write returns to the caller. *)
Record Commit : Type := mkCommit { commit_hash : string }.

(* ------------------------------------------------------------------ *)
(** ** Commit options *)

(** Modelled from the spec: the commit author identity ([commit-author.ts]
    is not part of the sources at hand).  The options only ever ask an author
    whether it is empty and for its textual form. *)
Record CommitAuthor : Type := mkCommitAuthor {
  author_isEmpty : bool;
  author_toString : string
}.

(** Modelled from the spec: the optional signing-key reference
    ([signing-key-id.ts] is not part of the sources at hand); same two
    observations. *)
Record SigningKeyId : Type := mkSigningKeyId {
  key_isEmpty : bool;
  key_toString : string
}.

Record CommitOptions : Type := mkCommitOptions {
  author : CommitAuthor;
  gpgSig : SigningKeyId;
  noGpgSig : bool
}.

(** The option object handed to the collaborator: keys in insertion order,
    [None] standing for [null]. *)
Definition GitOptions : Type := list (string * option string).

(** [...(cond && obj)]: spreading [false] adds nothing. *)
Definition spreadIf (cond : bool) (obj : GitOptions) : GitOptions :=
  if cond then obj else [].

(** The double-quote character wrapped around the author text. *)
Definition dquote : string := String (ascii_of_nat 34) EmptyString.

(** [CommitOptions.forSimpleGit] *)
Definition forSimpleGit (o : CommitOptions) : GitOptions :=
  ([("--allow-empty", None)]
   ++ spreadIf (negb (author_isEmpty (author o)))
        [("--author", Some (dquote ++ author_toString (author o) ++ dquote)%string)]
   ++ spreadIf (negb (key_isEmpty (gpgSig o)))
        [("--gpg-sign", Some (key_toString (gpgSig o)))]
   ++ spreadIf (noGpgSig o) [("--no-gpg-sign", None)])%list.

Definition hasOption (k : string) (opts : GitOptions) : bool :=
  existsb (fun kv => String.eqb (fst kv) k) opts.

Definition isSigningDirective (kv : string * option string) : bool :=
  String.eqb (fst kv) "--gpg-sign" || String.eqb (fst kv) "--no-gpg-sign".

(** The signing directives present in an option object, in order. *)
Definition signingDirectives (opts : GitOptions) : GitOptions :=
  filter isSigningDirective opts.

(** The signing directives as the specification prescribes them: the key
    when there is one, else the suppression when the flag is set, else
    none. *)
Definition specSigningDirectives (o : CommitOptions) : GitOptions :=
  if negb (key_isEmpty (gpgSig o)) then
    [("--gpg-sign", Some (key_toString (gpgSig o)))]
  else if noGpgSig o then [("--no-gpg-sign", None)]
  else [].

(* ------------------------------------------------------------------ *)
(** ** Messages *)

Definition CREATE_JOB_SUBJECT_PREFIX : string := "CLAIM LOCK: JOB: ".
Definition MARK_JOB_AS_DONE_SUBJECT_PREFIX : string := "RELEASE LOCK: JOB DONE: ".

(** Modelled from the spec: the outgoing message classes of [message.ts],
    which is not part of the sources at hand: a payload, tagged with what
    it asks for.  [PlainMessage] is the base class, which the queue refuses
    to write. *)
Inductive Message : Type :=
| PlainMessage (payload : string)
| CreateJobMessage (payload : string)
| MarkJobAsDoneMessage (payload : string).

Definition getPayload (m : Message) : string :=
  match m with
  | PlainMessage p | CreateJobMessage p | MarkJobAsDoneMessage p => p
  end.

(** A message read back from the log: the commit it came from, tagged with
    its class.  The three classes and their methods are those of the message
    class that ships with the queue source ([commitHash], [payload],
    [isEmpty]), under the names the queue imports them by. *)
Inductive StoredMessage : Type :=
| NullMessage (commit : DefaultLogFields)
| StoredCreateJobMessage (commit : DefaultLogFields)
| StoredMarkJobAsDoneMessage (commit : DefaultLogFields).

Definition commitOf (m : StoredMessage) : DefaultLogFields :=
  match m with
  | NullMessage c | StoredCreateJobMessage c | StoredMarkJobAsDoneMessage c => c
  end.

Definition commitHash (m : StoredMessage) : string := hash (commitOf m).

Definition payload (m : StoredMessage) : string := trim (body (commitOf m)).

Definition isEmpty (m : StoredMessage) : bool :=
  match m with
  | NullMessage _ => true
  | _ => false
  end.

Definition isStoredCreateJobMessage (m : StoredMessage) : bool :=
  match m with
  | StoredCreateJobMessage _ => true
  | _ => false
  end.

Definition nullMessage : StoredMessage :=
  NullMessage
    {| hash := ""; date := ""; message := "no-message"; refs := "";
       body := ""; author_name := ""; author_email := "" |}.

(** The error raised for a commit that encodes no known event. *)
Definition invalidQueueMessage (c : DefaultLogFields) : Error :=
  mkError ("Invalid queue message in commit: " ++ hash c).

(** Modelled from the spec: [messageFactoryFromCommit] of
    [stored-message.ts], which is not part of the sources at hand.  The
    event kind is decided by which of the two known prefixes the commit
    subject carries; a subject with neither is an unrecognized event.  The
    error text is the one of the factory bundled with the queue source. *)
Definition messageFactoryFromCommit (c : DefaultLogFields) : Outcome StoredMessage :=
  if startsWith (message c) CREATE_JOB_SUBJECT_PREFIX then
    Return (StoredCreateJobMessage c)
  else if startsWith (message c) MARK_JOB_AS_DONE_SUBJECT_PREFIX then
    Return (StoredMarkJobAsDoneMessage c)
  else Throw (invalidQueueMessage c).

(* ------------------------------------------------------------------ *)
(** ** The version-control collaborator *)

Module SimpleGit.

(** Modelled from the spec: the version-control collaborator (section 6),
    an external package.  A repository is its branch history, most recent
    commit first, the tip its remote last accepted, and what the
    environment decides: whether the path is a repository, faults of the
    log and push transports, how a new commit is named and which author it
    records. *)
Record Git : Type := mkGit {
  isRepo : bool;
  current : string;
  history : list DefaultLogFields;
  log_fault : option Error;
  remotes : string;
  push_fault : option Error;
  remote_history : list DefaultLogFields;
  hasher : list DefaultLogFields -> list string -> string;
  identity : GitOptions -> string * string
}.

Definition withHistory (h : list DefaultLogFields) (g : Git) : Git :=
  {| isRepo := isRepo g; current := current g; history := h;
     log_fault := log_fault g; remotes := remotes g;
     push_fault := push_fault g; remote_history := remote_history g;
     hasher := hasher g; identity := identity g |}.

Definition withRemoteHistory (h : list DefaultLogFields) (g : Git) : Git :=
  {| isRepo := isRepo g; current := current g; history := history g;
     log_fault := log_fault g; remotes := remotes g;
     push_fault := push_fault g; remote_history := h;
     hasher := hasher g; identity := identity g |}.

(** What [git log] says on a branch without commits. *)
Definition noCommitsYet (branch : string) : string :=
  "fatal: your current branch '" ++ branch ++ "' does not have any commits yet".

Definition checkIsRepo (g : Git) : bool := isRepo g.

(** [status().current] *)
Definition status (g : Git) : string := current g.

(** [log().all]: a transport fault, the empty-branch failure, or the
    history. *)
Definition log (g : Git) : Outcome (list DefaultLogFields) :=
  match log_fault g with
  | Some e => Throw e
  | None =>
      match history g with
      | [] => Throw (mkError (noCommitsYet (current g)))
      | h => Return h
      end
  end.

Definition paragraphBreak : string :=
  String (ascii_of_nat 10) (String (ascii_of_nat 10) EmptyString).

(** [commit(message, options)] as its interface reads: the first line
    given is the subject, the rest the body, both recorded as given; the
    new commit becomes the branch tip and the identifier the log gives it
    is returned; no commit is refused.  What a repository answers beyond
    that (a shortened identifier, a cleaned message, a refusal) is a
    [CommitAnswers] below. *)
Definition newCommit (lines : list string) (options : GitOptions) (g : Git)
  : DefaultLogFields :=
  {| hash := hasher g (history g) lines;
     date := "";
     message := List.hd "" lines;
     refs := "";
     body := String.concat paragraphBreak (List.tl lines);
     author_name := fst (identity g options);
     author_email := snd (identity g options) |}.

Definition commit (lines : list string) (options : GitOptions) (g : Git)
  : string * Git :=
  let c := newCommit lines options g in
  (hash c, withHistory (c :: history g) g).

(** [remote([])]: the configured remotes, as text. *)
Definition remote (g : Git) : string := remotes g.

(** [push()]: rejected with the transport's fault, or the remote takes
    the branch history. *)
Definition push (g : Git) : Outcome unit * Git :=
  match push_fault g with
  | Some e => (Throw e, g)
  | None => (Return tt, withRemoteHistory (history g) g)
  end.

End SimpleGit.
Import SimpleGit.

(* ------------------------------------------------------------------ *)
(** ** The queue *)

Record Queue : Type := mkQueue {
  name : string;
  gitRepoDir : string;
  git : Git;
  storedMessages : list StoredMessage
}.

Definition withGit (g : Git) (q : Queue) : Queue :=
  {| name := name q; gitRepoDir := gitRepoDir q; git := g;
     storedMessages := storedMessages q |}.

Definition withStoredMessages (ms : list StoredMessage) (q : Queue) : Queue :=
  {| name := name q; gitRepoDir := gitRepoDir q; git := git q;
     storedMessages := ms |}.

(** A method of the queue: it runs on the queue object and its repository,
    may change both, and returns or throws. *)
Definition Method (A : Type) : Type := Queue -> Outcome A * Queue.

Definition ret {A} (a : A) : Method A := fun q => (Return a, q).

Definition throw {A} (e : Error) : Method A := fun q => (Throw e, q).

Definition bind {A B} (m : Method A) (k : A -> Method B) : Method B :=
  fun q =>
    match m q with
    | (Return a, q') => k a q'
    | (Throw e, q') => (Throw e, q')
    end.

Notation "x <- m ;; k" := (bind m (fun x => k))
  (at level 61, m at next level, right associativity).
Notation "m ;;; k" := (bind m (fun _ => k))
  (at level 61, right associativity).

(** A call whose promise is not awaited: its outcome is never observed by
    the caller.  Its effects are placed where the call is made, so the
    state a method ends in is the repository once the started call has
    settled, which may be later than the moment the method returns. *)
Definition unawaited {A} (m : Method A) : Method unit :=
  fun q => (Return tt, snd (m q)).

(** [Queue.commitBelongsToQueue] *)
Definition commitBelongsToQueue (q : Queue) (c : DefaultLogFields) : bool :=
  if endsWith (message c) (name q) then true else false.

(** The body of the [try] block of [loadMessagesFromGit]. *)
Definition readMessages (q : Queue) : Outcome (list StoredMessage) :=
  match log (git q) with
  | Throw e => Throw e
  | Return all =>
      mapOutcome messageFactoryFromCommit (filter (commitBelongsToQueue q) all)
  end.

(** [Queue.loadMessagesFromGit] *)
Definition loadMessagesFromGit : Method unit :=
  fun q =>
    if negb (checkIsRepo (git q)) then
      (Throw (mkError ("Invalid git dir: " ++ gitRepoDir q)), q)
    else
      let currentBranch := status (git q) in
      match readMessages q with
      | Return ms => (Return tt, withStoredMessages ms q)
      | Throw err =>
          if includes (error_message err) (noCommitsYet currentBranch)
          then (Return tt, q)
          else (Throw err, q)
      end.

(** [Queue.create] *)
Definition create (name : string) (gitRepoDir : string) (git : Git) : Outcome Queue :=
  match loadMessagesFromGit (mkQueue name gitRepoDir git []) with
  | (Return _, q) => Return q
  | (Throw e, _) => Throw e
  end.

Definition getMessages (q : Queue) : list StoredMessage := storedMessages q.

Definition queueIsEmpty (q : Queue) : bool :=
  Nat.eqb (List.length (storedMessages q)) 0.

(** [Queue.getLatestMessage] *)
Definition getLatestMessage (q : Queue) : StoredMessage :=
  if queueIsEmpty q then nullMessage else List.nth 0 (storedMessages q) nullMessage.

(** [Queue.getNextJob] *)
Definition getNextJob (q : Queue) : StoredMessage :=
  let latestMessage := getLatestMessage q in
  if isStoredCreateJobMessage latestMessage then latestMessage else nullMessage.

Definition jobAlreadyPending (blocking : string) : Error :=
  mkError ("Can't create a new job. There is already a pending job in commit: "
           ++ blocking).

Definition noPendingJob : Error :=
  mkError "Can't mark job as done. There isn't any pending job".

(** [Queue.guardThatThereIsNoPendingJobs] *)
Definition guardThatThereIsNoPendingJobs : Method unit :=
  fun q =>
    if negb (isEmpty (getNextJob q))
    then throw (jobAlreadyPending (commitHash (getNextJob q))) q
    else ret tt q.

(** [Queue.guardThatThereIsAPendingJob] *)
Definition guardThatThereIsAPendingJob : Method unit :=
  fun q =>
    if isEmpty (getNextJob q) then throw noPendingJob q else ret tt q.

(** [this.git.commit(message, options)] on the queue's repository. *)
Definition gitCommit (lines : list string) (options : GitOptions) : Method string :=
  fun q =>
    let (id, g) := SimpleGit.commit lines options (git q) in
    (Return id, withGit g q).

(** [this.git.push()] on the queue's repository. *)
Definition gitPush : Method unit :=
  fun q =>
    let (r, g) := SimpleGit.push (git q) in
    (r, withGit g q).

(** [Queue.commit] *)
Definition commit (lines : list string) (commitOptions : CommitOptions)
  : Method Commit :=
  commitResult <- gitCommit lines (forSimpleGit commitOptions) ;;
  loadMessagesFromGit ;;;
  ret (mkCommit commitResult).

(** [Queue.push]: the inner [git.push()] is started and not awaited. *)
Definition push : Method unit :=
  fun q =>
    if negb (String.eqb (remote (git q)) "")
    then unawaited gitPush q
    else ret tt q.

(** [Queue.commitAndPush]: [this.push()] is started and not awaited. *)
Definition commitAndPush (lines : list string) (commitOptions : CommitOptions)
  : Method Commit :=
  c <- commit lines commitOptions ;;
  unawaited push ;;;
  ret c.

(** [Queue.buildCommitMessage] *)
Definition buildCommitMessage (m : Message) : Method (list string) :=
  fun q =>
    match m with
    | CreateJobMessage _ =>
        ret [CREATE_JOB_SUBJECT_PREFIX ++ name q; getPayload m] q
    | MarkJobAsDoneMessage _ =>
        ret [MARK_JOB_AS_DONE_SUBJECT_PREFIX ++ name q; getPayload m] q
    | PlainMessage _ => throw (mkError "Invalid Message type: object") q
    end.

(** [Queue.commitMessage] *)
Definition commitMessage (m : Message) (commitOptions : CommitOptions)
  : Method Commit :=
  lines <- buildCommitMessage m ;;
  commitAndPush lines commitOptions.

(** [Queue.createJob] *)
Definition createJob (payload : string) (commitOptions : CommitOptions)
  : Method Commit :=
  guardThatThereIsNoPendingJobs ;;;
  commitMessage (CreateJobMessage payload) commitOptions.

(** [Queue.markJobAsDone] *)
Definition markJobAsDone (payload : string) (commitOptions : CommitOptions)
  : Method Commit :=
  guardThatThereIsAPendingJob ;;;
  commitMessage (MarkJobAsDoneMessage payload) commitOptions.

(* ------------------------------------------------------------------ *)
(** ** Sample repositories and options *)

Module Samples.

(** Names commits by the length of the history they extend. *)
Definition sampleHasher (h : list DefaultLogFields) (lines : list string) : string :=
  match List.length h with
  | 0 => "1a5f"
  | 1 => "2b6e"
  | 2 => "3c7d"
  | _ => "4d8c"
  end.

Definition sampleIdentity (options : GitOptions) : string * string :=
  ("A committer", "committer@example.com").

(** A freshly initialised repository without remote. *)
Definition emptyRepo : Git :=
  {| isRepo := true; current := "main"; history := []; log_fault := None;
     remotes := ""; push_fault := None; remote_history := [];
     hasher := sampleHasher; identity := sampleIdentity |}.

(** A repository whose remote rejects every push. *)
Definition rejectingRepo : Git :=
  {| isRepo := true; current := "main"; history := []; log_fault := None;
     remotes := "origin";
     push_fault := Some (mkError "! [rejected] main -> main (fetch first)");
     remote_history := [];
     hasher := sampleHasher; identity := sampleIdentity |}.

(** An ordinary commit whose subject happens to end with a queue name,
    and a repository holding just that commit. *)
Definition projectCommit : DefaultLogFields :=
  {| hash := "0e9b"; date := ""; message := "Document the deploy";
     refs := ""; body := ""; author_name := "A committer";
     author_email := "committer@example.com" |}.

Definition projectRepo : Git :=
  {| isRepo := true; current := "main";
     history := [projectCommit];
     log_fault := None; remotes := ""; push_fault := None; remote_history := [];
     hasher := sampleHasher; identity := sampleIdentity |}.

(** A repository whose log cannot be read. *)
Definition brokenRepo : Git :=
  {| isRepo := true; current := "main"; history := [];
     log_fault := Some (mkError "fatal: unable to read tree");
     remotes := ""; push_fault := None; remote_history := [];
     hasher := sampleHasher; identity := sampleIdentity |}.

(** A path that is not a repository. *)
Definition notARepo : Git :=
  {| isRepo := false; current := ""; history := []; log_fault := None;
     remotes := ""; push_fault := None; remote_history := [];
     hasher := sampleHasher; identity := sampleIdentity |}.

Definition noAuthor : CommitAuthor := mkCommitAuthor true "".
Definition noKey : SigningKeyId := mkSigningKeyId true "".
Definition someKey : SigningKeyId :=
  mkSigningKeyId false "BD98B3F42545FF93EFF55F7F3F39AA1432CA6AD7".

(** The options of the test suite: no key, signing suppressed. *)
Definition unsignedOptions : CommitOptions := mkCommitOptions noAuthor noKey true.

(** A key together with the suppress flag. *)
Definition keyAndSuppress : CommitOptions := mkCommitOptions noAuthor someKey true.

(** A queue object on the fresh repository, its state after a claim, and
    after the release that follows. *)
Definition freshQueue : Queue := mkQueue "Q" "/repo" emptyRepo [].

Definition afterClaim : Outcome Commit * Queue :=
  createJob "  payload-1 " unsignedOptions freshQueue.

Definition afterRelease : Outcome Commit * Queue :=
  markJobAsDone "payload-1" unsignedOptions (snd afterClaim).

(** A claim on the queue named nightly-build, on the fresh repository. *)
Definition nightlyQueue : Queue := mkQueue "nightly-build" "/repo" emptyRepo [].

Definition afterNightlyClaim : Outcome Commit * Queue :=
  createJob "job-for-nightly" unsignedOptions nightlyQueue.

(** A claim on a repository whose remote rejects the push. *)
Definition rejectedClaim : Outcome Commit * Queue :=
  createJob "payload-1" unsignedOptions (mkQueue "Q" "/repo" rejectingRepo []).

End Samples.

(* ------------------------------------------------------------------ *)
(** ** Conditions on the collaborator, and states reached by a write *)

(** The collaborator keeps its side of the interface: a transport fault of
    the log never reads like the empty-branch failure, and the commits
    already on the branch carry hexadecimal identifiers. *)
Definition wellBehaved (g : Git) : bool :=
  match log_fault g with
  | Some e => negb (includes (error_message e) (noCommitsYet (current g)))
  | None => true
  end
  && forallb (fun c => isHex (hash c)) (history g).

(** The messages the log of [g] holds for queue [q], when every commit kept
    by the filter encodes an event. *)
Definition eventsOf (q : Queue) (g : Git) : Outcome (list StoredMessage) :=
  mapOutcome messageFactoryFromCommit (filter (commitBelongsToQueue q) (history g)).

(** The lines written for a claim and for a release. *)
Definition claimLines (q : Queue) (payload : string) : list string :=
  [CREATE_JOB_SUBJECT_PREFIX ++ name q; payload].

Definition releaseLines (q : Queue) (payload : string) : list string :=
  [MARK_JOB_AS_DONE_SUBJECT_PREFIX ++ name q; payload].

(** The queue once [lines] are committed, the log is read back as [ms] and
    the push has been started. *)
Definition written (q : Queue) (lines : list string) (o : CommitOptions)
    (ms : list StoredMessage) : Queue :=
  snd (push (withStoredMessages ms
               (withGit (snd (SimpleGit.commit lines (forSimpleGit o) (git q))) q))).

(** The commit a claim, respectively a release, adds to the branch. *)
Definition claimCommit (q : Queue) (payload : string) (o : CommitOptions)
  : DefaultLogFields :=
  newCommit (claimLines q payload) (forSimpleGit o) (git q).

Definition releaseCommit (q : Queue) (payload : string) (o : CommitOptions)
  : DefaultLogFields :=
  newCommit (releaseLines q payload) (forSimpleGit o) (git q).

(** The queue after a claim, respectively a release, was written and read
    back on top of the events [ms]. *)
Definition claimed (q : Queue) (payload : string) (o : CommitOptions)
    (ms : list StoredMessage) : Queue :=
  written q (claimLines q payload) o
    (StoredCreateJobMessage (claimCommit q payload o) :: ms).

Definition released (q : Queue) (payload : string) (o : CommitOptions)
    (ms : list StoredMessage) : Queue :=
  written q (releaseLines q payload) o
    (StoredMarkJobAsDoneMessage (releaseCommit q payload o) :: ms).

(** The queue's snapshot is what its repository's log holds for it, and
    the log can be read. *)
Definition synced (q : Queue) : Prop :=
  isRepo (git q) = true /\ log_fault (git q) = None
  /\ eventsOf q (git q) = Return (storedMessages q).

(** What the driving shell reports for the next-job action. *)
Record NextJob : Type := mkNextJob {
  job_found : bool;
  job_commit : option string;
  job_payload : option string
}.

Definition nextJob (q : Queue) : NextJob :=
  let m := getNextJob q in
  {| job_found := negb (isEmpty m);
     job_commit := if negb (isEmpty m) then Some (commitHash m) else None;
     job_payload := if negb (isEmpty m) then Some (payload m) else None |}.

(* ------------------------------------------------------------------ *)
(** ** The textual form of the commit options *)

(** [CommitOptions.toString] *)
Definition toString (o : CommitOptions) : string :=
  let allowEmpty := "--allow-empty" in
  let author :=
    if author_isEmpty (author o) then ""
    else "--author=" ++ dquote ++ author_toString (author o) ++ dquote in
  let gpgSig :=
    if key_isEmpty (gpgSig o) then ""
    else "--gpg-sign=" ++ key_toString (gpgSig o) in
  let noGpgSig := if noGpgSig o then "--no-gpg-sign" else "" in
  allowEmpty ++ " " ++ author ++ " " ++ gpgSig ++ " " ++ noGpgSig.

(* ------------------------------------------------------------------ *)
(** ** The order of events in a snapshot *)

(** Most recent first, claims and releases take turns and the oldest event
    is a claim: the log of a slot that was never claimed twice in a row nor
    released while free. *)
Fixpoint alternating (ms : list StoredMessage) : bool :=
  match ms with
  | [] => true
  | StoredCreateJobMessage _ :: rest =>
      match rest with
      | [] => true
      | StoredMarkJobAsDoneMessage _ :: _ => alternating rest
      | _ => false
      end
  | StoredMarkJobAsDoneMessage _ :: rest =>
      match rest with
      | StoredCreateJobMessage _ :: _ => alternating rest
      | _ => false
      end
  | NullMessage _ :: _ => false
  end.

(* ------------------------------------------------------------------ *)
(** ** The earlier queue

    The queue class that ships beside the commit options: it matches commit
    subjects as a whole and signs by an optional key alone. *)

Module EarlierQueue.

Inductive Message : Type :=
| NoMessage (commit : DefaultLogFields)
| CreateJobMessage (commit : DefaultLogFields)
| MarkJobAsDoneMessage (commit : DefaultLogFields).

Definition commitOf (m : Message) : DefaultLogFields :=
  match m with
  | NoMessage c | CreateJobMessage c | MarkJobAsDoneMessage c => c
  end.

(** [Message.commitHash] *)
Definition commitHash (m : Message) : string := hash (commitOf m).

(** [Message.payload] *)
Definition payload (m : Message) : string := trim (body (commitOf m)).

(** [Message.isEmpty] *)
Definition isEmpty (m : Message) : bool :=
  match m with
  | NoMessage _ => true
  | _ => false
  end.

Definition isCreateJobMessage (m : Message) : bool :=
  match m with
  | CreateJobMessage _ => true
  | _ => false
  end.

(** [noMessage] *)
Definition noMessage : Message :=
  NoMessage
    {| hash := ""; date := ""; message := "no-message"; refs := "";
       body := ""; author_name := ""; author_email := "" |}.

Record Queue : Type := mkQueue {
  name : string;
  gitRepoDir : string;
  git : Git;
  messages : list Message
}.

Definition withGit (g : Git) (q : Queue) : Queue :=
  {| name := name q; gitRepoDir := gitRepoDir q; git := g;
     messages := messages q |}.

Definition withMessages (ms : list Message) (q : Queue) : Queue :=
  {| name := name q; gitRepoDir := gitRepoDir q; git := git q;
     messages := ms |}.

(** A method of the earlier queue. *)
Definition Method (A : Type) : Type := Queue -> Outcome A * Queue.

Definition ret {A} (a : A) : Method A := fun q => (Return a, q).

Definition throw {A} (e : Error) : Method A := fun q => (Throw e, q).

Definition bind {A B} (m : Method A) (k : A -> Method B) : Method B :=
  fun q =>
    match m q with
    | (Return a, q') => k a q'
    | (Throw e, q') => (Throw e, q')
    end.

Definition unawaited {A} (m : Method A) : Method unit :=
  fun q => (Return tt, snd (m q)).

(** [Queue.createJobCommitSubject] *)
Definition createJobCommitSubject (q : Queue) : string :=
  CREATE_JOB_SUBJECT_PREFIX ++ name q.

(** [Queue.markJobAsDoneCommitSubject] *)
Definition markJobAsDoneCommitSubject (q : Queue) : string :=
  MARK_JOB_AS_DONE_SUBJECT_PREFIX ++ name q.

(** [Queue.isCreateJobCommit] *)
Definition isCreateJobCommit (q : Queue) (c : DefaultLogFields) : bool :=
  if String.eqb (message c) (createJobCommitSubject q) then true else false.

(** [Queue.isMarkJobAsDoneCommit] *)
Definition isMarkJobAsDoneCommit (q : Queue) (c : DefaultLogFields) : bool :=
  if String.eqb (message c) (markJobAsDoneCommitSubject q) then true else false.

(** [Queue.commitBelongsToQueue] *)
Definition commitBelongsToQueue (q : Queue) (c : DefaultLogFields) : bool :=
  if isCreateJobCommit q c || isMarkJobAsDoneCommit q c then true else false.

(** [Queue.messageFactory] *)
Definition messageFactory (q : Queue) (c : DefaultLogFields) : Outcome Message :=
  if isCreateJobCommit q c then Return (CreateJobMessage c)
  else if isMarkJobAsDoneCommit q c then Return (MarkJobAsDoneMessage c)
  else Throw (invalidQueueMessage c).

(** The body of the [try] block of [loadMessagesFromGit]. *)
Definition readMessages (q : Queue) : Outcome (list Message) :=
  match log (git q) with
  | Throw e => Throw e
  | Return all =>
      mapOutcome (messageFactory q) (filter (commitBelongsToQueue q) all)
  end.

(** [Queue.loadMessagesFromGit] *)
Definition loadMessagesFromGit : Method unit :=
  fun q =>
    if negb (checkIsRepo (git q)) then
      (Throw (mkError ("Invalid git dir: " ++ gitRepoDir q)), q)
    else
      let currentBranch := status (git q) in
      match readMessages q with
      | Return ms => (Return tt, withMessages ms q)
      | Throw err =>
          if includes (error_message err) (noCommitsYet currentBranch)
          then (Return tt, q)
          else (Throw err, q)
      end.

(** [Queue.create] *)
Definition create (name : string) (gitRepoDir : string) (git : Git) : Outcome Queue :=
  match loadMessagesFromGit (mkQueue name gitRepoDir git []) with
  | (Return _, q) => Return q
  | (Throw e, _) => Throw e
  end.

(** [Queue.getMessages] *)
Definition getMessages (q : Queue) : list Message := messages q.

(** [Queue.isEmpty] *)
Definition queueIsEmpty (q : Queue) : bool :=
  Nat.eqb (List.length (messages q)) 0.

(** [Queue.getLatestMessage] *)
Definition getLatestMessage (q : Queue) : Message :=
  if queueIsEmpty q then noMessage else List.nth 0 (messages q) noMessage.

(** [Queue.getNextJob] *)
Definition getNextJob (q : Queue) : Message :=
  let latestMessage := getLatestMessage q in
  if isCreateJobMessage latestMessage then latestMessage else noMessage.

(** [Queue.guardThatThereIsNoPendingJobs] *)
Definition guardThatThereIsNoPendingJobs : Method unit :=
  fun q =>
    if negb (isEmpty (getNextJob q))
    then throw (jobAlreadyPending (commitHash (getNextJob q))) q
    else ret tt q.

(** [Queue.guardThatThereIsAPendingJob] *)
Definition guardThatThereIsAPendingJob : Method unit :=
  fun q =>
    if isEmpty (getNextJob q) then throw noPendingJob q else ret tt q.

(** [Queue.commitOptions] *)
Definition commitOptions (signingKey : string) : GitOptions :=
  ([("--allow-empty", None)]
   ++ spreadIf (String.eqb signingKey "") [("--no-gpg-sign", None)]
   ++ spreadIf (negb (String.eqb signingKey "")) [("--gpg-sign", Some signingKey)])%list.

Definition gitCommit (lines : list string) (options : GitOptions) : Method string :=
  fun q =>
    let (id, g) := SimpleGit.commit lines options (git q) in
    (Return id, withGit g q).

Definition gitPush : Method unit :=
  fun q =>
    let (r, g) := SimpleGit.push (git q) in
    (r, withGit g q).

(** [Queue.commit] *)
Definition commit (lines : list string) (signingKey : string) : Method Commit :=
  bind (gitCommit lines (commitOptions signingKey)) (fun commitResult =>
  bind loadMessagesFromGit (fun _ =>
  ret (mkCommit commitResult))).

(** [Queue.push]: the inner [git.push()] is started and not awaited. *)
Definition push : Method unit :=
  fun q =>
    if negb (String.eqb (remote (git q)) "")
    then unawaited gitPush q
    else ret tt q.

(** [Queue.commitAndPush]: [this.push()] is started and not awaited. *)
Definition commitAndPush (lines : list string) (signingKey : string)
  : Method Commit :=
  bind (commit lines signingKey) (fun c =>
  bind (unawaited push) (fun _ =>
  ret c)).

(** [Queue.dispatch] *)
Definition dispatch (payload : string) (signingKey : string) : Method Commit :=
  bind guardThatThereIsNoPendingJobs (fun _ =>
  fun q => commitAndPush [createJobCommitSubject q; payload] signingKey q).

(** [Queue.markJobAsDone] *)
Definition markJobAsDone (payload : string) (signingKey : string) : Method Commit :=
  bind guardThatThereIsAPendingJob (fun _ =>
  fun q => commitAndPush [markJobAsDoneCommitSubject q; payload] signingKey q).

(** What a queue named [n], created on repository [g], gets to see. *)
Definition observed (n dir : string) (g : Git) : Outcome (list Message) :=
  match create n dir g with
  | Return q => Return (messages q)
  | Throw e => Throw e
  end.

End EarlierQueue.

(* ------------------------------------------------------------------ *)
(** ** The collaborator's answers to a commit

    The interface of the collaborator says that a commit call returns an
    identifier and that the log lists subject and body.  It does not say
    that the identifier returned is the one the log lists, nor that the
    texts come back as they were given.  [SimpleGit.commit] takes both for
    granted; here they are answers of the collaborator, and a commit call
    may also be rejected. *)

Record CommitAnswers : Type := mkCommitAnswers {
  reportedId : string -> string;
  storedSubject : string -> string;
  storedBody : string -> string;
  commit_fault : option Error
}.

(** The answers [SimpleGit.commit] takes for granted. *)
Definition interfaceAnswers : CommitAnswers :=
  {| reportedId := fun h => h;
     storedSubject := fun s => s;
     storedBody := fun s => s;
     commit_fault := None |}.

(** The answers of git behind simple-git: the commit call reports the
    abbreviated identifier, and the message is cleaned up before it is
    stored (blanks at the end of a line are dropped, runs of empty lines
    become one, empty lines at either end go). *)
Module GitAnswers.

Definition lineFeed : ascii := ascii_of_nat 10.

(** White space as git's clean-up sees it. *)
Definition isSpace (c : ascii) : bool :=
  let n := nat_of_ascii c in
  ((9 <=? n) && (n <=? 13) || (n =? 32))%nat.

(** The abbreviated identifier: the first seven digits. *)
Definition abbreviate (h : string) : string := String.substring 0 7 h.

Fixpoint linesOf (s : string) : list string :=
  match s with
  | EmptyString => [EmptyString]
  | String c s' =>
      if Ascii.eqb c lineFeed then EmptyString :: linesOf s'
      else
        match linesOf s' with
        | l :: ls => String c l :: ls
        | [] => [String c EmptyString]
        end
  end.

Fixpoint stripTrailingSpace (s : string) : string :=
  match s with
  | EmptyString => EmptyString
  | String c s' =>
      match stripTrailingSpace s' with
      | EmptyString => if isSpace c then EmptyString else String c EmptyString
      | t => String c t
      end
  end.

Definition isEmptyLine (l : string) : bool := String.eqb l "".

(** Empty lines at the start go. *)
Fixpoint dropLeadingEmpty (ls : list string) : list string :=
  match ls with
  | [] => []
  | l :: ls' => if isEmptyLine l then dropLeadingEmpty ls' else ls
  end.

(** Of a run of empty lines one stays; [afterEmpty] tells that the line
    before was empty. *)
Fixpoint collapseEmpty (afterEmpty : bool) (ls : list string) : list string :=
  match ls with
  | [] => []
  | l :: ls' =>
      if isEmptyLine l then
        if afterEmpty then collapseEmpty true ls'
        else l :: collapseEmpty true ls'
      else l :: collapseEmpty false ls'
  end.

Fixpoint dropTrailingEmpty (ls : list string) : list string :=
  match ls with
  | [] => []
  | l :: ls' =>
      match dropTrailingEmpty ls' with
      | [] => if isEmptyLine l then [] else [l]
      | t => l :: t
      end
  end.

Definition cleanLines (s : string) : list string :=
  dropTrailingEmpty
    (collapseEmpty false
       (dropLeadingEmpty (map stripTrailingSpace (linesOf s)))).

(** The cleaned-up text. *)
Definition cleanup (s : string) : string :=
  String.concat (String lineFeed EmptyString) (cleanLines s).

Fixpoint firstParagraph (ls : list string) : list string :=
  match ls with
  | [] => []
  | l :: ls' => if isEmptyLine l then [] else l :: firstParagraph ls'
  end.

(** The subject the log lists: the first paragraph, on one line. *)
Definition subjectOf (s : string) : string :=
  String.concat " " (firstParagraph (cleanLines s)).

Definition answers : CommitAnswers :=
  {| reportedId := abbreviate;
     storedSubject := subjectOf;
     storedBody := cleanup;
     commit_fault := None |}.

(** The same, with a commit call that is rejected. *)
Definition rejecting (e : Error) : CommitAnswers :=
  {| reportedId := abbreviate;
     storedSubject := subjectOf;
     storedBody := cleanup;
     commit_fault := Some e |}.

End GitAnswers.

(* ------------------------------------------------------------------ *)
(** ** The queue's writes, on a collaborator that answers

    The writing methods of the queue once more, with the commit call
    answered by the collaborator: [Queue.commit], [Queue.commitAndPush],
    [Queue.commitMessage], [Queue.createJob] and [Queue.markJobAsDone].
    With [interfaceAnswers] they are the methods above. *)

Module Observed.

(** The commit the collaborator adds to the branch. *)
Definition newCommit (a : CommitAnswers) (lines : list string)
    (options : GitOptions) (g : Git) : DefaultLogFields :=
  {| hash := hasher g (history g) lines;
     date := "";
     message := storedSubject a (List.hd "" lines);
     refs := "";
     body := storedBody a (String.concat paragraphBreak (List.tl lines));
     author_name := fst (identity g options);
     author_email := snd (identity g options) |}.

(** [this.git.commit(message, options)]: rejected, or the new commit
    becomes the branch tip and the identifier the collaborator reports for
    it is returned. *)
Definition gitCommit (a : CommitAnswers) (lines : list string)
    (options : GitOptions) : Method string :=
  fun q =>
    match commit_fault a with
    | Some e => (Throw e, q)
    | None =>
        let c := newCommit a lines options (git q) in
        (Return (reportedId a (hash c)),
         withGit (withHistory (c :: history (git q)) (git q)) q)
    end.

(** [Queue.commit] *)
Definition commit (a : CommitAnswers) (lines : list string)
    (commitOptions : CommitOptions) : Method Commit :=
  commitResult <- gitCommit a lines (forSimpleGit commitOptions) ;;
  loadMessagesFromGit ;;;
  ret (mkCommit commitResult).

(** [Queue.commitAndPush] *)
Definition commitAndPush (a : CommitAnswers) (lines : list string)
    (commitOptions : CommitOptions) : Method Commit :=
  c <- commit a lines commitOptions ;;
  unawaited push ;;;
  ret c.

(** [Queue.commitMessage] *)
Definition commitMessage (a : CommitAnswers) (m : Message)
    (commitOptions : CommitOptions) : Method Commit :=
  lines <- buildCommitMessage m ;;
  commitAndPush a lines commitOptions.

(** [Queue.createJob] *)
Definition createJob (a : CommitAnswers) (payload : string)
    (commitOptions : CommitOptions) : Method Commit :=
  guardThatThereIsNoPendingJobs ;;;
  commitMessage a (CreateJobMessage payload) commitOptions.

(** [Queue.markJobAsDone] *)
Definition markJobAsDone (a : CommitAnswers) (payload : string)
    (commitOptions : CommitOptions) : Method Commit :=
  guardThatThereIsAPendingJob ;;;
  commitMessage a (MarkJobAsDoneMessage payload) commitOptions.

(** The commit a claim, respectively a release, adds to the branch. *)
Definition claimCommit (a : CommitAnswers) (q : Queue) (payload : string)
    (o : CommitOptions) : DefaultLogFields :=
  newCommit a (claimLines q payload) (forSimpleGit o) (git q).

Definition releaseCommit (a : CommitAnswers) (q : Queue) (payload : string)
    (o : CommitOptions) : DefaultLogFields :=
  newCommit a (releaseLines q payload) (forSimpleGit o) (git q).

(** The queue with [nc] as its branch tip, before the log is read back. *)
Definition landed (q : Queue) (nc : DefaultLogFields) : Queue :=
  withGit (withHistory (nc :: history (git q)) (git q)) q.

(** The queue once [nc] is the branch tip, the log is read back as [ms]
    and the push has been started. *)
Definition settled (q : Queue) (nc : DefaultLogFields)
    (ms : list StoredMessage) : Queue :=
  snd (push (withStoredMessages ms (landed q nc))).

(** The collaborator records the two subjects of a queue named [n] as
    given. *)
Definition keepsSubjects (a : CommitAnswers) (n : string) : Prop :=
  storedSubject a (CREATE_JOB_SUBJECT_PREFIX ++ n)
  = CREATE_JOB_SUBJECT_PREFIX ++ n
  /\ storedSubject a (MARK_JOB_AS_DONE_SUBJECT_PREFIX ++ n)
     = MARK_JOB_AS_DONE_SUBJECT_PREFIX ++ n.

End Observed.

(* ------------------------------------------------------------------ *)
(** ** Samples with git's answers *)

Module GitSamples.

(** Names commits, in full, by the length of the history they extend. *)
Definition fullHasher (h : list DefaultLogFields) (lines : list string) : string :=
  match List.length h with
  | 0 => "38881be2c7a94d0f5e61b3a8c9d7e4f2a1b0c6d5"
  | 1 => "9d4c07a1e5f28b63c0a7d9e1f4b2a8c6d5e3f701"
  | _ => "c2a5e8f1b4d7a0c3e6f9b2d5a8c1e4f7b0d3a6c9"
  end.

Definition freshRepo : Git :=
  {| isRepo := true; current := "main"; history := []; log_fault := None;
     remotes := ""; push_fault := None; remote_history := [];
     hasher := fullHasher; identity := Samples.sampleIdentity |}.

Definition freshQueue : Queue := mkQueue "Q" "/repo" freshRepo [].

(** A payload of two lines, the first with blanks at its end. *)
Definition twoLines : string :=
  "first line  " ++ String GitAnswers.lineFeed "second line".

Definition afterClaim : Outcome Commit * Queue :=
  Observed.createJob GitAnswers.answers twoLines Samples.unsignedOptions freshQueue.

(** A claim on a repository whose log cannot be read back. *)
Definition unreadableClaim : Outcome Commit * Queue :=
  Observed.createJob GitAnswers.answers "payload-1" Samples.unsignedOptions
    (mkQueue "Q" "/repo" Samples.brokenRepo []).

(** A claim whose commit call is rejected. *)
Definition rejectedCommit : Outcome Commit * Queue :=
  Observed.createJob
    (GitAnswers.rejecting (mkError "error: gpg failed to sign the data"))
    "payload-1" Samples.unsignedOptions freshQueue.

End GitSamples.

(* ------------------------------------------------------------------ *)
(** ** The driving shell *)

Module Main.

Definition ACTION_CREATE_JOB : string := "create-job".
Definition ACTION_NEXT_JOB : string := "next-job".
Definition ACTION_MARK_JOB_AS_DONE : string := "mark-job-as-done".

(** [actionOptions]: the three selectors, joined as an array prints. *)
Definition actionOptions : string :=
  String.concat "," [ACTION_CREATE_JOB; ACTION_NEXT_JOB; ACTION_MARK_JOB_AS_DONE].

(** The inputs, by the names the shell reads them under. *)
Record Inputs : Type := mkInputs {
  queueName : string;
  action : string;
  jobPayload : string;
  gitRepoDir : string;
  gitCommitAuthor : string;
  gitCommitGpgSign : string;
  gitCommitNoGpgSign : bool
}.

Definition withAction (a : string) (i : Inputs) : Inputs :=
  {| queueName := queueName i; action := a; jobPayload := jobPayload i;
     gitRepoDir := gitRepoDir i; gitCommitAuthor := gitCommitAuthor i;
     gitCommitGpgSign := gitCommitGpgSign i;
     gitCommitNoGpgSign := gitCommitNoGpgSign i |}.

(** Modelled from the spec: what the process finds around it and what the
    modules absent from the sources at hand provide: the working directory,
    the repository behind a path ([simple-git-factory.ts]) and how it
    answers a commit, the author and
    signing-key constructors ([commit-author.ts], [signing-key-id.ts]), and
    the text a function prints as when it is put in a template. *)
Record Environment : Type := mkEnvironment {
  cwd : string;
  createInstance : string -> Git;
  commitAnswers : CommitAnswers;
  fromEmailAddressString : string -> Outcome CommitAuthor;
  emptyCommitAuthor : CommitAuthor;
  newSigningKeyId : string -> SigningKeyId;
  emptySigningKeyId : SigningKeyId;
  actionOptionsSource : string
}.

(** The same surroundings, with [g] as the repository behind every path. *)
Definition reopen (g : Git) (env : Environment) : Environment :=
  {| cwd := cwd env; createInstance := fun _ => g;
     commitAnswers := commitAnswers env;
     fromEmailAddressString := fromEmailAddressString env;
     emptyCommitAuthor := emptyCommitAuthor env;
     newSigningKeyId := newSigningKeyId env;
     emptySigningKeyId := emptySigningKeyId env;
     actionOptionsSource := actionOptionsSource env |}.

(** A string used as a condition: true unless empty. *)
Definition truthy (s : string) : bool := negb (String.eqb s "").

(** [getCommitAuthor] *)
Definition getCommitAuthor (env : Environment) (commitAuthor : string)
  : Outcome CommitAuthor :=
  if truthy commitAuthor then fromEmailAddressString env commitAuthor
  else Return (emptyCommitAuthor env).

(** [getSigningKeyId] *)
Definition getSigningKeyId (env : Environment) (signingKeyId : string)
  : SigningKeyId :=
  if truthy signingKeyId then newSigningKeyId env signingKeyId
  else emptySigningKeyId env.

(** [getCommitOptions] *)
Definition getCommitOptions (env : Environment) (inputs : Inputs)
  : Outcome CommitOptions :=
  match getCommitAuthor env (gitCommitAuthor inputs) with
  | Throw e => Throw e
  | Return author =>
      let gpgSign := getSigningKeyId env (gitCommitGpgSign inputs) in
      let noGpgSig := gitCommitNoGpgSign inputs in
      Return (mkCommitOptions author gpgSign noGpgSig)
  end.

(** A value given to [setOutput]. *)
Inductive OutputValue : Type :=
| BoolValue (b : bool)
| StringValue (s : string).

(** What a run leaves behind: the outputs set, in order, the failure
    message if the run was marked failed, the errors logged, and the
    repository. *)
Record RunResult : Type := mkRunResult {
  outputs : list (string * OutputValue);
  failed : option string;
  errors : list string;
  repository : Git
}.

(** The directory a run works in, and the repository it opens there. *)
Definition repoDirOf (env : Environment) (inputs : Inputs) : string :=
  if truthy (gitRepoDir inputs) then gitRepoDir inputs else cwd env.

Definition repositoryOf (env : Environment) (inputs : Inputs) : Git :=
  createInstance env (repoDirOf env inputs).

(** A run that has done nothing yet on repository [g]. *)
Definition started (g : Git) : RunResult :=
  {| outputs := []; failed := None; errors := []; repository := g |}.

(** A step of the run: it may set an output, log an error, mark the run
    failed or change the repository, and it returns or throws. *)
Definition Step (A : Type) : Type := RunResult -> Outcome A * RunResult.

Definition finish {A} (a : A) : Step A := fun r => (Return a, r).

Definition andThen {A B} (s : Step A) (k : A -> Step B) : Step B :=
  fun r =>
    match s r with
    | (Return a, r') => k a r'
    | (Throw e, r') => (Throw e, r')
    end.

(** [setOutput(name, value)] *)
Definition setOutput (name : string) (value : OutputValue) : Step unit :=
  fun r =>
    (Return tt,
     {| outputs := (outputs r ++ [(name, value)])%list; failed := failed r;
        errors := errors r; repository := repository r |}).

(** [core.error(message)] *)
Definition logError (message : string) : Step unit :=
  fun r =>
    (Return tt,
     {| outputs := outputs r; failed := failed r;
        errors := (errors r ++ [message])%list; repository := repository r |}).

(** [core.setFailed(message)]: the run is marked failed; what was output
    or logged before stays. *)
Definition setFailed (message : string) : Step unit :=
  fun r =>
    (Return tt,
     {| outputs := outputs r; failed := Some message;
        errors := errors r; repository := repository r |}).

(** An awaited call that does not touch the repository. *)
Definition awaited {A} (o : Outcome A) : Step A := fun r => (o, r).

(** An awaited method of the queue: the queue object and with it the
    repository are as the method leaves them, whether it returns or
    throws. *)
Definition onQueue {A} (m : Method A) (queue : Queue) : Step A :=
  fun r =>
    (fst (m queue),
     {| outputs := outputs r; failed := failed r; errors := errors r;
        repository := git (snd (m queue)) |}).

(** [try { body } catch (error) { handler(error) }] *)
Definition tryCatch (body : Step unit) (handler : Error -> Step unit) : Step unit :=
  fun r =>
    match body r with
    | (Return u, r') => (Return u, r')
    | (Throw e, r') => handler e r'
    end.

(** The [try] block of [run]: the queue is created, the options are
    built, and the action selects the operation.  The debug group and the
    lookup of the signing agent's home, which do not bear on the result,
    are left out. *)
Definition runBody (env : Environment) (inputs : Inputs) : Step unit :=
  let gitRepoDir :=
    if truthy (gitRepoDir inputs) then gitRepoDir inputs else cwd env in
  let gitInstance := createInstance env gitRepoDir in
  andThen (awaited (create (queueName inputs) gitRepoDir gitInstance)) (fun queue =>
  andThen (awaited (getCommitOptions env inputs)) (fun commitOptions =>
  if String.eqb (action inputs) ACTION_CREATE_JOB then
    andThen (onQueue (Observed.createJob (commitAnswers env) (jobPayload inputs)
                        commitOptions) queue) (fun createJobCommit =>
    andThen (setOutput "job_created" (BoolValue true)) (fun _ =>
    setOutput "job_commit" (StringValue (commit_hash createJobCommit))))
  else if String.eqb (action inputs) ACTION_NEXT_JOB then
    let nextJob := getNextJob queue in
    andThen (setOutput "job_found" (BoolValue (negb (isEmpty nextJob)))) (fun _ =>
    if negb (isEmpty nextJob) then
      andThen (setOutput "job_commit" (StringValue (commitHash nextJob))) (fun _ =>
      setOutput "job_payload" (StringValue (payload nextJob)))
    else finish tt)
  else if String.eqb (action inputs) ACTION_MARK_JOB_AS_DONE then
    andThen (onQueue (Observed.markJobAsDone (commitAnswers env) (jobPayload inputs)
                        commitOptions) queue) (fun markJobAsDoneCommit =>
    andThen (setOutput "job_created" (BoolValue true)) (fun _ =>
    setOutput "job_commit" (StringValue (commit_hash markJobAsDoneCommit))))
  else
    logError ("Invalid action. Actions can only be: " ++ actionOptionsSource env))).

(** [run] *)
Definition run (env : Environment) (inputs : Inputs) : RunResult :=
  snd (tryCatch (runBody env inputs)
         (fun error => setFailed (error_message error))
         (started (repositoryOf env inputs))).

End Main.

(* ------------------------------------------------------------------ *)
(** ** Reading the answers of the signing agent *)

Module Gpg.

(** What [getExecOutput] resolves to. *)
Record ExecOutput : Type := mkExecOutput {
  exitCode : nat;
  stdout : string;
  stderr : string
}.

Definition LF : ascii := ascii_of_nat 10.
Definition CR : ascii := ascii_of_nat 13.

(** [s.replace(/\r/g, '')] *)
Fixpoint removeCarriageReturns (s : string) : string :=
  match s with
  | EmptyString => EmptyString
  | String c s' =>
      if Ascii.eqb c CR then removeCarriageReturns s'
      else String c (removeCarriageReturns s')
  end.

(** [s.split(/\n/g)]: the pieces between line feeds, at least one. *)
Fixpoint splitLines (s : string) : list string :=
  match s with
  | EmptyString => [EmptyString]
  | String c s' =>
      if Ascii.eqb c LF then EmptyString :: splitLines s'
      else
        match splitLines s' with
        | l :: ls => String c l :: ls
        | [] => [String c EmptyString]
        end
  end.

(** The lines both readers walk over:
    [stdout.replace(/\r/g, '').trim().split(/\n/g)]. *)
Definition outputLines (res : ExecOutput) : list string :=
  splitLines (trim (removeCarriageReturns (stdout res))).

(** The first check of the agent and import readers: there is error text
    and the exit code is not zero. *)
Definition failedWithMessage (res : ExecOutput) : bool :=
  Nat.ltb 0 (String.length (stderr res)) && negb (Nat.eqb (exitCode res) 0).

(** The [then] of [gpgConnectAgent]: the error text of a failed call, the
    first line that starts with ERR, or the trimmed output. *)
Definition gpgConnectAgentThen (res : ExecOutput) : Outcome string :=
  if failedWithMessage res then Throw (mkError (stderr res))
  else
    match find (fun line => startsWith line "ERR") (outputLines res) with
    | Some line => Throw (mkError line)
    | None => Return (trim (stdout res))
    end.

(** The [then] of [importKey]. *)
Definition importKeyThen (res : ExecOutput) : Outcome string :=
  if failedWithMessage res then Throw (mkError (stderr res))
  else if negb (String.eqb (stderr res) "") then Return (trim (stderr res))
  else Return (trim (stdout res)).

(** [line.replace(/(grp|:)/g, '')]: every occurrence of grp and every colon
    is dropped, scanning from the left. *)
Fixpoint removeGrpAndColons (s : string) : string :=
  match s with
  | EmptyString => EmptyString
  | String c s' =>
      if Ascii.eqb c ":" then removeGrpAndColons s'
      else
        match s' with
        | String c1 (String c2 s'') =>
            if Ascii.eqb c "g" && Ascii.eqb c1 "r" && Ascii.eqb c2 "p"
            then removeGrpAndColons s''
            else String c (removeGrpAndColons s')
        | _ => String c (removeGrpAndColons s')
        end
  end.

(** The [then] of [getKeygrips]: one keygrip for every line that starts
    with grp, in order. *)
Definition getKeygripsThen (res : ExecOutput) : list string :=
  map (fun line => trim (removeGrpAndColons line))
      (filter (fun line => startsWith line "grp") (outputLines res)).

(** The command line [gpgConnectAgent] runs. *)
Definition gpgConnectAgentCommand (command homedir : string) : string :=
  "gpg-connect-agent --homedir " ++ homedir ++ " " ++ dquote ++ command
  ++ dquote ++ " /bye".

(** The bytes of a code unit below 256 in UTF-8. *)
Definition utf8 (c : ascii) : list nat :=
  let n := nat_of_ascii c in
  if Nat.ltb n 128 then [n] else [192 + n / 64; 128 + n mod 64].

Definition upperHexDigit (d : nat) : ascii :=
  List.nth d ["0"; "1"; "2"; "3"; "4"; "5"; "6"; "7"; "8"; "9";
              "A"; "B"; "C"; "D"; "E"; "F"]%char "0"%char.

Fixpoint upperHexOfBytes (bs : list nat) : string :=
  match bs with
  | [] => EmptyString
  | b :: bs' =>
      String (upperHexDigit (b / 16))
        (String (upperHexDigit (b mod 16)) (upperHexOfBytes bs'))
  end.

Fixpoint utf8Bytes (s : string) : list nat :=
  match s with
  | EmptyString => []
  | String c s' => (utf8 c ++ utf8Bytes s')%list
  end.

(** [Buffer.from(passphrase, 'utf8').toString('hex').toUpperCase()] *)
Definition hexPassphrase (passphrase : string) : string :=
  upperHexOfBytes (utf8Bytes passphrase).

(** The two agent commands of [presetPassphrase]. *)
Definition presetPassphraseCommand (keygrip passphrase : string) : string :=
  "PRESET_PASSPHRASE " ++ keygrip ++ " -1 " ++ hexPassphrase passphrase.

Definition keyInfoCommand (keygrip : string) : string := "KEYINFO " ++ keygrip.

Definition isUpperHexDigit (c : ascii) : bool :=
  let n := nat_of_ascii c in
  ((48 <=? n) && (n <=? 57) || (65 <=? n) && (n <=? 70))%nat.

Fixpoint isUpperHex (s : string) : bool :=
  match s with
  | EmptyString => true
  | String c s' => isUpperHexDigit c && isUpperHex s'
  end.

(** A record of gpg's colon listing for a keygrip: the tag, nine empty
    fields, then the keygrip. *)
Definition keygripRecord (keygrip : string) : string :=
  "grp:::::::::" ++ keygrip ++ ":".

End Gpg.

(* ------------------------------------------------------------------ *)
(** ** Sample runs *)

Module ShellSamples.

(** The surroundings and the inputs of a run on the fresh repository. *)
Definition sampleEnvironment : Main.Environment :=
  {| Main.cwd := "/repo";
     Main.createInstance := fun _ => Samples.emptyRepo;
     Main.commitAnswers := GitAnswers.answers;
     Main.fromEmailAddressString := fun s => Return (mkCommitAuthor false s);
     Main.emptyCommitAuthor := Samples.noAuthor;
     Main.newSigningKeyId := fun s => mkSigningKeyId false s;
     Main.emptySigningKeyId := Samples.noKey;
     Main.actionOptionsSource := "function actionOptions() { }" |}.

Definition sampleInputs : Main.Inputs :=
  {| Main.queueName := "Q"; Main.action := "next-job";
     Main.jobPayload := " payload-1"; Main.gitRepoDir := "";
     Main.gitCommitAuthor := ""; Main.gitCommitGpgSign := "";
     Main.gitCommitNoGpgSign := true |}.

(** The same on a repository that names its commits in full and answers
    a commit as git does, with a payload of two lines. *)
Definition gitEnvironment : Main.Environment :=
  Main.reopen GitSamples.freshRepo sampleEnvironment.

Definition gitInputs : Main.Inputs :=
  {| Main.queueName := "Q"; Main.action := "next-job";
     Main.jobPayload := GitSamples.twoLines; Main.gitRepoDir := "";
     Main.gitCommitAuthor := ""; Main.gitCommitGpgSign := "";
     Main.gitCommitNoGpgSign := true |}.

End ShellSamples.

(* ------------------------------------------------------------------ *)
(** ** What a queue gets to see *)

(** The events a queue named [n], created on repository [g], loads. *)
Definition observedEvents (n dir : string) (g : Git) : Outcome (list StoredMessage) :=
  match create n dir g with
  | Return q => Return (storedMessages q)
  | Throw e => Throw e
  end.

(* ------------------------------------------------------------------ *)
(** ** Facts about the string primitives *)

Section StringFacts.

Lemma startsWith_refl (s : string) : startsWith s s = true.
Proof.
  induction s as [|c s IH]; simpl; [reflexivity|].
  now rewrite Ascii.eqb_refl, IH.
Qed.

Lemma startsWith_append (p s : string) : startsWith (p ++ s) p = true.
Proof.
  induction p as [|c p IH]; simpl; [now destruct s|].
  now rewrite Ascii.eqb_refl, IH.
Qed.

Lemma endsWith_append (p s : string) : endsWith (p ++ s) s = true.
Proof.
  induction p as [|c p IH]; simpl.
  - destruct s; simpl; now rewrite ?String.eqb_refl, ?Ascii.eqb_refl.
  - rewrite IH. apply orb_true_r.
Qed.

Lemma includes_refl (s : string) : includes s s = true.
Proof.
  destruct s as [|c s]; [reflexivity|].
  unfold includes; fold includes.
  now rewrite startsWith_refl.
Qed.

Lemma occurs_append (c : ascii) (a b : string) :
  occurs c (a ++ b) = occurs c a || occurs c b.
Proof.
  induction a as [|d a IH]; simpl; [reflexivity|].
  now rewrite IH, orb_assoc.
Qed.

Lemma startsWith_occurs (c : ascii) (p s : string) :
  startsWith s p = true -> occurs c p = true -> occurs c s = true.
Proof.
  revert s; induction p as [|d p IH]; intros s Hp Hc; simpl in *.
  - discriminate.
  - destruct s as [|e s]; [discriminate|].
    apply andb_true_iff in Hp as [Hed Hp].
    apply Ascii.eqb_eq in Hed; subst e.
    simpl. apply orb_true_iff in Hc as [Hc|Hc].
    + now rewrite Hc.
    + rewrite (IH s Hp Hc). apply orb_true_r.
Qed.

Lemma includes_occurs (c : ascii) (p s : string) :
  includes s p = true -> occurs c p = true -> occurs c s = true.
Proof.
  induction s as [|d s IH]; simpl; intros Hi Hc.
  - rewrite orb_false_r in Hi.
    exact (startsWith_occurs c p "" Hi Hc).
  - apply orb_true_iff in Hi as [Hi|Hi].
    + exact (startsWith_occurs c p (String d s) Hi Hc).
    + rewrite (IH Hi Hc). apply orb_true_r.
Qed.

Lemma isHex_no_quote (s : string) :
  isHex s = true -> occurs "'"%char s = false.
Proof.
  induction s as [|c s IH]; simpl; intros H; [reflexivity|].
  apply andb_true_iff in H as [Hc Hs].
  rewrite (IH Hs), orb_false_r.
  destruct (Ascii.eqb c "'"%char) eqn:E; [|reflexivity].
  apply Ascii.eqb_eq in E; subst c. discriminate Hc.
Qed.

Lemma trimStart_decompose (s : string) :
  exists l, s = l ++ trimStart s /\ allWhiteSpace l = true
            /\ edgeIsWhiteSpace (first (trimStart s)) = false.
Proof.
  induction s as [|c s (l & Hs & Hl & Hf)]; simpl.
  - now exists "".
  - destruct (isWhiteSpace c) eqn:E.
    + exists (String c l). simpl. rewrite E, Hl, <- Hs. auto.
    + exists "". simpl. auto.
Qed.

Lemma trimEnd_decompose (s : string) :
  exists r, s = trimEnd s ++ r /\ allWhiteSpace r = true
            /\ edgeIsWhiteSpace (last (trimEnd s)) = false.
Proof.
  induction s as [|c s (r & Hs & Hr & Hl)]; simpl.
  - now exists "".
  - destruct (trimEnd s) as [|d t] eqn:E.
    + destruct (isWhiteSpace c) eqn:W.
      * exists (String c r). simpl in *. subst r. rewrite W, Hr. auto.
      * exists r. simpl in *. subst r. auto.
    + exists r. simpl in *. rewrite <- Hs. destruct t; auto.
Qed.

Lemma trimEnd_first (s : string) :
  edgeIsWhiteSpace (first s) = false ->
  edgeIsWhiteSpace (first (trimEnd s)) = false.
Proof.
  destruct s as [|c s]; simpl; [auto|]. intros H.
  destruct (trimEnd s); [rewrite H|]; simpl; auto.
Qed.

(** [trim] takes white space off both ends and nothing else. *)
Lemma trim_decompose (s : string) :
  exists l r, s = l ++ trim s ++ r
              /\ allWhiteSpace l = true /\ allWhiteSpace r = true
              /\ edgeIsWhiteSpace (first (trim s)) = false
              /\ edgeIsWhiteSpace (last (trim s)) = false.
Proof.
  destruct (trimStart_decompose s) as (l & Hs & Hl & Hf).
  destruct (trimEnd_decompose (trimStart s)) as (r & Ht & Hr & Hla).
  exists l, r. unfold trim. rewrite <- Ht.
  repeat split; auto using trimEnd_first.
Qed.

End StringFacts.

(* ------------------------------------------------------------------ *)
(** ** Facts about reading the log *)

Section LogFacts.

Lemma factory_claim (c : DefaultLogFields) (n : string) :
  message c = CREATE_JOB_SUBJECT_PREFIX ++ n ->
  messageFactoryFromCommit c = Return (StoredCreateJobMessage c).
Proof.
  intros H. unfold messageFactoryFromCommit.
  now rewrite H, startsWith_append.
Qed.

Lemma factory_release (c : DefaultLogFields) (n : string) :
  message c = MARK_JOB_AS_DONE_SUBJECT_PREFIX ++ n ->
  messageFactoryFromCommit c = Return (StoredMarkJobAsDoneMessage c).
Proof.
  intros H. unfold messageFactoryFromCommit.
  rewrite H, startsWith_append.
  reflexivity.
Qed.

Lemma belongs_own (q : Queue) (c : DefaultLogFields) (pfx : string) :
  message c = pfx ++ name q -> commitBelongsToQueue q c = true.
Proof.
  intros H. unfold commitBelongsToQueue.
  now rewrite H, endsWith_append.
Qed.

Lemma factory_throw (c : DefaultLogFields) (e : Error) :
  messageFactoryFromCommit c = Throw e -> e = invalidQueueMessage c.
Proof.
  unfold messageFactoryFromCommit.
  destruct (startsWith _ CREATE_JOB_SUBJECT_PREFIX); [discriminate|].
  destruct (startsWith _ MARK_JOB_AS_DONE_SUBJECT_PREFIX); [discriminate|].
  congruence.
Qed.

Lemma mapOutcome_throw {A B} (f : A -> Outcome B) (xs : list A) (e : Error) :
  mapOutcome f xs = Throw e -> exists x, In x xs /\ f x = Throw e.
Proof.
  induction xs as [|x xs IH]; simpl; [discriminate|].
  destruct (f x) as [y|e'] eqn:Fx.
  - destruct (mapOutcome f xs) as [ys|e'']; [discriminate|].
    intros [= ->]. destruct (IH eq_refl) as (x' & Hin & Hx'). eauto.
  - intros [= ->]. eauto.
Qed.

(** The error of an unrecognized commit with a hexadecimal identifier
    never reads like the empty-branch failure. *)
Lemma invalid_not_swallowed (c : DefaultLogFields) (branch : string) :
  isHex (hash c) = true ->
  includes (error_message (invalidQueueMessage c)) (noCommitsYet branch) = false.
Proof.
  intros Hhex.
  destruct (includes _ _) eqn:E; [|reflexivity].
  apply (includes_occurs "'"%char) in E; [|reflexivity].
  change (error_message (invalidQueueMessage c))
    with ("Invalid queue message in commit: " ++ hash c) in E.
  rewrite occurs_append, (isHex_no_quote _ Hhex) in E.
  discriminate E.
Qed.

Lemma events_throw_not_swallowed (q : Queue) (g : Git) (e : Error) (branch : string) :
  forallb (fun c => isHex (hash c)) (history g) = true ->
  eventsOf q g = Throw e ->
  includes (error_message e) (noCommitsYet branch) = false.
Proof.
  intros Hhex He.
  apply mapOutcome_throw in He as (c & Hin & Hc).
  apply factory_throw in Hc; subst e.
  apply invalid_not_swallowed.
  apply filter_In in Hin as [Hin _].
  rewrite forallb_forall in Hhex. now apply Hhex.
Qed.

(** A load that returns either left the snapshot alone or replaced it by
    the events of the log. *)
Lemma load_return (q q' : Queue) (u : unit) :
  loadMessagesFromGit q = (Return u, q') ->
  q' = q \/
  (isRepo (git q) = true /\ log_fault (git q) = None /\ history (git q) <> []
   /\ exists ms, eventsOf q (git q) = Return ms /\ q' = withStoredMessages ms q).
Proof.
  unfold loadMessagesFromGit, readMessages, log, checkIsRepo, eventsOf.
  destruct (isRepo (git q)); simpl; [|discriminate].
  destruct (log_fault (git q)) as [e|].
  - destruct (includes _ _); [|discriminate]. intros [= _ <-]. now left.
  - destruct (history (git q)) as [|c h] eqn:Hh.
    + destruct (includes _ _); [|discriminate]. intros [= _ <-]. now left.
    + destruct (mapOutcome _ _) as [ms|e].
      * intros [= _ <-]. right. repeat split; try congruence. eauto.
      * destruct (includes _ _); [|discriminate]. intros [= _ <-]. now left.
Qed.

Lemma load_ok (q : Queue) (ms : list StoredMessage) :
  isRepo (git q) = true -> log_fault (git q) = None -> history (git q) <> [] ->
  eventsOf q (git q) = Return ms ->
  loadMessagesFromGit q = (Return tt, withStoredMessages ms q).
Proof.
  unfold loadMessagesFromGit, readMessages, log, checkIsRepo, eventsOf.
  intros -> -> Hh He. simpl.
  destruct (history (git q)) as [|c h]; [congruence|].
  now rewrite He.
Qed.

(** On a well-behaved repository with commits, a load that returns has
    read the log. *)
Lemma load_return_read (q q' : Queue) (u : unit) :
  (match log_fault (git q) with
   | Some e => negb (includes (error_message e) (noCommitsYet (current (git q))))
   | None => true
   end = true) ->
  (forall e, eventsOf q (git q) = Throw e ->
             includes (error_message e) (noCommitsYet (current (git q))) = false) ->
  history (git q) <> [] ->
  loadMessagesFromGit q = (Return u, q') ->
  isRepo (git q) = true /\ log_fault (git q) = None
  /\ exists ms, eventsOf q (git q) = Return ms /\ q' = withStoredMessages ms q.
Proof.
  unfold loadMessagesFromGit, readMessages, log, checkIsRepo, status, eventsOf.
  intros Hf Hev Hh.
  destruct (isRepo (git q)); simpl; [|discriminate].
  destruct (log_fault (git q)) as [e|].
  - apply negb_true_iff in Hf. simpl. rewrite Hf. discriminate.
  - destruct (history (git q)) as [|c h] eqn:Hhist; [congruence|].
    destruct (mapOutcome _ _) as [ms|e].
    + intros [= _ <-]. repeat split; eauto.
    + rewrite (Hev e eq_refl). discriminate.
Qed.

End LogFacts.

(* ------------------------------------------------------------------ *)
(** ** Facts about the queue's queries and writes *)

Section QueueFacts.

Lemma getNextJob_cons (q : Queue) (m : StoredMessage) (ms : list StoredMessage) :
  storedMessages q = m :: ms ->
  getNextJob q = if isStoredCreateJobMessage m then m else nullMessage.
Proof.
  unfold getNextJob, getLatestMessage, queueIsEmpty. now intros ->.
Qed.

Lemma getNextJob_snapshot (q q' : Queue) :
  storedMessages q' = storedMessages q -> getNextJob q' = getNextJob q.
Proof.
  unfold getNextJob, getLatestMessage, queueIsEmpty. now intros ->.
Qed.

Lemma push_cases (q : Queue) :
  snd (push q) = q \/
  snd (push q) = withGit (withRemoteHistory (history (git q)) (git q)) q.
Proof.
  unfold push, unawaited, gitPush, SimpleGit.push, ret.
  destruct (negb _); simpl; [|now left].
  destruct (push_fault (git q)); simpl; [left; now destruct q | now right].
Qed.

Lemma commitAndPush_unfold (q : Queue) (lines : list string) (o : CommitOptions) :
  commitAndPush lines o q =
  match loadMessagesFromGit
          (withGit (snd (SimpleGit.commit lines (forSimpleGit o) (git q))) q) with
  | (Return _, q2) =>
      (Return (mkCommit (hash (newCommit lines (forSimpleGit o) (git q)))),
       snd (push q2))
  | (Throw e, q2) => (Throw e, q2)
  end.
Proof.
  unfold commitAndPush, commit, bind, gitCommit, unawaited, ret. simpl.
  now destruct (loadMessagesFromGit _) as [[u|e] q2].
Qed.

Lemma createJob_unfold (q : Queue) (p : string) (o : CommitOptions) :
  createJob p o q =
  if negb (isEmpty (getNextJob q))
  then (Throw (jobAlreadyPending (commitHash (getNextJob q))), q)
  else commitAndPush (claimLines q p) o q.
Proof.
  unfold createJob, bind, guardThatThereIsNoPendingJobs, commitMessage,
    buildCommitMessage, bind, throw, ret.
  now destruct (negb _).
Qed.

Lemma markJobAsDone_unfold (q : Queue) (p : string) (o : CommitOptions) :
  markJobAsDone p o q =
  if isEmpty (getNextJob q)
  then (Throw noPendingJob, q)
  else commitAndPush (releaseLines q p) o q.
Proof.
  unfold markJobAsDone, bind, guardThatThereIsAPendingJob, commitMessage,
    buildCommitMessage, bind, throw, ret.
  now destruct (isEmpty _).
Qed.

Lemma written_facts (q : Queue) (lines : list string) (o : CommitOptions)
    (ms : list StoredMessage) :
  let q' := written q lines o ms in
  name q' = name q /\ gitRepoDir q' = gitRepoDir q /\ storedMessages q' = ms
  /\ isRepo (git q') = isRepo (git q)
  /\ log_fault (git q') = log_fault (git q)
  /\ current (git q') = current (git q)
  /\ history (git q') = newCommit lines (forSimpleGit o) (git q) :: history (git q).
Proof.
  unfold written. destruct (push_cases
    (withStoredMessages ms
       (withGit (snd (SimpleGit.commit lines (forSimpleGit o) (git q))) q)))
    as [-> | ->]; simpl; repeat split.
Qed.

Lemma eventsOf_cons (q q' : Queue) (g g' : Git) (nc : DefaultLogFields)
    (m : StoredMessage) :
  name q' = name q -> history g' = nc :: history g ->
  messageFactoryFromCommit nc = Return m -> commitBelongsToQueue q nc = true ->
  eventsOf q' g' =
  match eventsOf q g with
  | Return ms => Return (m :: ms)
  | Throw e => Throw e
  end.
Proof.
  unfold eventsOf, commitBelongsToQueue. intros Hn Hh Hf Hb.
  rewrite Hh, Hn. simpl. rewrite Hb. simpl. now rewrite Hf.
Qed.

Variables (q : Queue) (lines : list string) (o : CommitOptions) (m : StoredMessage).

Let nc := newCommit lines (forSimpleGit o) (git q).

Hypothesis Hfactory : messageFactoryFromCommit nc = Return m.
Hypothesis Hbelongs : commitBelongsToQueue q nc = true.

Lemma written_synced (ms : list StoredMessage) :
  isRepo (git q) = true -> log_fault (git q) = None ->
  eventsOf q (git q) = Return ms ->
  synced (written q lines o (m :: ms)).
Proof.
  intros Hr Hl He.
  destruct (written_facts q lines o (m :: ms)) as (Hn & _ & Hs & Hr' & Hl' & _ & Hh).
  unfold synced. rewrite Hr', Hl', Hs. repeat split; auto.
  rewrite (eventsOf_cons q _ (git q) _ nc m Hn Hh Hfactory Hbelongs).
  now rewrite He.
Qed.

(** The write goes through whenever the log can be read. *)
Lemma commitAndPush_ok (ms : list StoredMessage) :
  isRepo (git q) = true -> log_fault (git q) = None ->
  eventsOf q (git q) = Return ms ->
  commitAndPush lines o q =
  (Return (mkCommit (hash nc)), written q lines o (m :: ms)).
Proof.
  intros Hr Hl He. rewrite commitAndPush_unfold.
  rewrite (load_ok _ (m :: ms)); try assumption; try discriminate.
  - reflexivity.
  - rewrite (eventsOf_cons q _ (git q) _ nc m); try reflexivity; try assumption.
    now rewrite He.
Qed.

(** A write that returns either kept the old snapshot (its reload was
    taken for the empty-branch case) or read its own commit back. *)
Lemma commitAndPush_return (c : Commit) (q1 : Queue) :
  commitAndPush lines o q = (Return c, q1) ->
  c = mkCommit (hash nc) /\
  (q1 = written q lines o (storedMessages q) \/
   (isRepo (git q) = true /\ log_fault (git q) = None /\
    exists ms, eventsOf q (git q) = Return ms /\ q1 = written q lines o (m :: ms))).
Proof.
  rewrite commitAndPush_unfold.
  destruct (loadMessagesFromGit _) as [[u|e] q2] eqn:L; [|discriminate].
  intros [= <- <-]. split; [reflexivity|].
  apply load_return in L as [-> | (Hr & Hl & _ & ms' & He & ->)].
  - now left.
  - right. simpl in Hr, Hl. repeat split; try assumption.
    rewrite (eventsOf_cons q _ (git q) _ nc m) in He;
      try reflexivity; try assumption.
    destruct (eventsOf q (git q)) as [ms|e]; [|discriminate].
    injection He as <-. now exists ms.
Qed.

(** On a well-behaved repository a write that returns has read its own
    commit back. *)
Lemma commitAndPush_return_read (c : Commit) (q1 : Queue) :
  wellBehaved (git q) = true ->
  commitAndPush lines o q = (Return c, q1) ->
  c = mkCommit (hash nc) /\ isRepo (git q) = true /\ log_fault (git q) = None /\
  exists ms, eventsOf q (git q) = Return ms /\ q1 = written q lines o (m :: ms).
Proof.
  unfold wellBehaved. intros Hwb. apply andb_true_iff in Hwb as [Hfault Hhex].
  rewrite commitAndPush_unfold.
  destruct (loadMessagesFromGit _) as [[u|e] q2] eqn:L; [|discriminate].
  intros [= <- <-]. split; [reflexivity|].
  apply load_return_read in L.
  - destruct L as (Hr & Hl & ms' & He & ->). simpl in Hr, Hl.
    repeat split; try assumption.
    rewrite (eventsOf_cons q _ (git q) _ nc m) in He;
      try reflexivity; try assumption.
    destruct (eventsOf q (git q)) as [ms|e]; [|discriminate].
    injection He as <-. now exists ms.
  - exact Hfault.
  - intros e. rewrite (eventsOf_cons q _ (git q) _ nc m);
      try reflexivity; try assumption.
    destruct (eventsOf q (git q)) as [ms|e'] eqn:He; [discriminate|].
    intros [= <-]. simpl.
    exact (events_throw_not_swallowed q (git q) e' (current (git q)) Hhex He).
  - discriminate.
Qed.

End QueueFacts.

(* ------------------------------------------------------------------ *)
(** ** Claims and releases *)

Section Operations.

Variables (q : Queue) (p : string) (o : CommitOptions).

Lemma claim_factory :
  messageFactoryFromCommit (claimCommit q p o)
  = Return (StoredCreateJobMessage (claimCommit q p o)).
Proof. exact (factory_claim (claimCommit q p o) (name q) eq_refl). Qed.

Lemma claim_belongs : commitBelongsToQueue q (claimCommit q p o) = true.
Proof.
  exact (belongs_own q (claimCommit q p o) CREATE_JOB_SUBJECT_PREFIX eq_refl).
Qed.

Lemma release_factory :
  messageFactoryFromCommit (releaseCommit q p o)
  = Return (StoredMarkJobAsDoneMessage (releaseCommit q p o)).
Proof. exact (factory_release (releaseCommit q p o) (name q) eq_refl). Qed.

Lemma release_belongs : commitBelongsToQueue q (releaseCommit q p o) = true.
Proof.
  exact (belongs_own q (releaseCommit q p o) MARK_JOB_AS_DONE_SUBJECT_PREFIX eq_refl).
Qed.

Lemma createJob_ok :
  synced q -> isEmpty (getNextJob q) = true ->
  createJob p o q
  = (Return (mkCommit (hash (claimCommit q p o))), claimed q p o (storedMessages q))
  /\ synced (claimed q p o (storedMessages q)).
Proof.
  intros (Hr & Hl & He) Hg. split.
  - rewrite createJob_unfold, Hg. simpl negb. cbv iota.
    exact (commitAndPush_ok q _ o _ claim_factory claim_belongs _ Hr Hl He).
  - exact (written_synced q _ o _ claim_factory claim_belongs _ Hr Hl He).
Qed.

Lemma markJobAsDone_ok :
  synced q -> isEmpty (getNextJob q) = false ->
  markJobAsDone p o q
  = (Return (mkCommit (hash (releaseCommit q p o))),
     released q p o (storedMessages q))
  /\ synced (released q p o (storedMessages q)).
Proof.
  intros (Hr & Hl & He) Hg. split.
  - rewrite markJobAsDone_unfold, Hg.
    exact (commitAndPush_ok q _ o _ release_factory release_belongs _ Hr Hl He).
  - exact (written_synced q _ o _ release_factory release_belongs _ Hr Hl He).
Qed.

Lemma createJob_return (c : Commit) (q1 : Queue) :
  createJob p o q = (Return c, q1) ->
  isEmpty (getNextJob q) = true /\ c = mkCommit (hash (claimCommit q p o)) /\
  (q1 = written q (claimLines q p) o (storedMessages q) \/
   (isRepo (git q) = true /\ log_fault (git q) = None /\
    exists ms, eventsOf q (git q) = Return ms /\ q1 = claimed q p o ms)).
Proof.
  rewrite createJob_unfold.
  destruct (isEmpty (getNextJob q)); simpl negb; cbv iota; [|discriminate].
  intros H. split; [reflexivity|].
  exact (commitAndPush_return q _ o _ claim_factory claim_belongs c q1 H).
Qed.

Lemma createJob_return_read (c : Commit) (q1 : Queue) :
  wellBehaved (git q) = true ->
  createJob p o q = (Return c, q1) ->
  isEmpty (getNextJob q) = true /\ c = mkCommit (hash (claimCommit q p o)) /\
  isRepo (git q) = true /\ log_fault (git q) = None /\
  exists ms, eventsOf q (git q) = Return ms /\ q1 = claimed q p o ms.
Proof.
  intros Hwb. rewrite createJob_unfold.
  destruct (isEmpty (getNextJob q)); simpl negb; cbv iota; [|discriminate].
  intros H. split; [reflexivity|].
  exact (commitAndPush_return_read q _ o _ claim_factory claim_belongs c q1 Hwb H).
Qed.

Lemma markJobAsDone_return (c : Commit) (q1 : Queue) :
  markJobAsDone p o q = (Return c, q1) ->
  isEmpty (getNextJob q) = false /\ c = mkCommit (hash (releaseCommit q p o)) /\
  (q1 = written q (releaseLines q p) o (storedMessages q) \/
   (isRepo (git q) = true /\ log_fault (git q) = None /\
    exists ms, eventsOf q (git q) = Return ms /\ q1 = released q p o ms)).
Proof.
  rewrite markJobAsDone_unfold.
  destruct (isEmpty (getNextJob q)); [discriminate|].
  intros H. split; [reflexivity|].
  exact (commitAndPush_return q _ o _ release_factory release_belongs c q1 H).
Qed.

End Operations.

Lemma claimed_pending (q : Queue) (p : string) (o : CommitOptions)
    (ms : list StoredMessage) :
  getNextJob (claimed q p o ms) = StoredCreateJobMessage (claimCommit q p o).
Proof.
  destruct (written_facts q (claimLines q p) o
              (StoredCreateJobMessage (claimCommit q p o) :: ms))
    as (_ & _ & Hs & _).
  exact (getNextJob_cons _ _ _ Hs).
Qed.

Lemma released_free (q : Queue) (p : string) (o : CommitOptions)
    (ms : list StoredMessage) :
  getNextJob (released q p o ms) = nullMessage.
Proof.
  destruct (written_facts q (releaseLines q p) o
              (StoredMarkJobAsDoneMessage (releaseCommit q p o) :: ms))
    as (_ & _ & Hs & _).
  exact (getNextJob_cons _ _ _ Hs).
Qed.


(* ------------------------------------------------------------------ *)
(** ** The specification's claims *)

(** C3 -- Pending-job derivation.  [getNextJob] reports a job exactly when
    the most recent loaded event is a created job, and then it is that
    event; with no event, or a completed job as the most recent one, it
    reports the empty message, the same in both cases.  Hence after a
    [createJob] and a [markJobAsDone] that both returned, [getNextJob]
    finds nothing and any further [createJob] returns a commit. *)
Theorem pending_job_derivation :
  (forall q, isEmpty (getNextJob q) = false <->
             exists c ms, storedMessages q = StoredCreateJobMessage c :: ms)
  /\ (forall q c ms, storedMessages q = StoredCreateJobMessage c :: ms ->
                     getNextJob q = StoredCreateJobMessage c
                     /\ getNextJob q = getLatestMessage q)
  /\ (forall q, isStoredCreateJobMessage (getLatestMessage q) = false ->
                getNextJob q = nullMessage)
  /\ (forall q c ms, storedMessages q = StoredMarkJobAsDoneMessage c :: ms ->
                     getNextJob q = getNextJob (withStoredMessages [] q))
  /\ (forall q p1 o1 c1 q1 p2 o2 c2 q2,
         createJob p1 o1 q = (Return c1, q1) ->
         markJobAsDone p2 o2 q1 = (Return c2, q2) ->
         isEmpty (getNextJob q2) = true
         /\ job_found (nextJob q2) = false
         /\ forall p3 o3, exists c3 q3, createJob p3 o3 q2 = (Return c3, q3)).
Proof.
  repeat apply conj.
  - intros q; split.
    + unfold getNextJob, getLatestMessage, queueIsEmpty.
      destruct (storedMessages q) as [|[c|c|c] ms]; simpl; try discriminate.
      intros _. now exists c, ms.
    + intros (c & ms & H). now rewrite (getNextJob_cons _ _ _ H).
  - intros q c ms H. split; [exact (getNextJob_cons _ _ _ H)|].
    unfold getNextJob, getLatestMessage, queueIsEmpty. now rewrite H.
  - intros q H. unfold getNextJob. now rewrite H.
  - intros q c ms H. now rewrite (getNextJob_cons _ _ _ H).
  - intros q p1 o1 c1 q1 p2 o2 c2 q2 H1 H2.
    apply createJob_return in H1 as (G & _ & [-> | (Hr & Hl & ms & He & ->)]).
    + (* the reload was skipped: the release guard then sees no job *)
      apply markJobAsDone_return in H2 as (G2 & _).
      destruct (written_facts q (claimLines q p1) o1 (storedMessages q))
        as (_ & _ & Hs & _).
      rewrite (getNextJob_snapshot _ _ Hs) in G2. congruence.
    + pose proof (written_synced q _ o1 _ (claim_factory q p1 o1)
                    (claim_belongs q p1 o1) ms Hr Hl He) as S1.
      fold (claimed q p1 o1 ms) in S1.
      assert (G1 : isEmpty (getNextJob (claimed q p1 o1 ms)) = false)
        by now rewrite claimed_pending.
      destruct (markJobAsDone_ok (claimed q p1 o1 ms) p2 o2 S1 G1) as (E2 & S2).
      rewrite E2 in H2. injection H2 as _ <-.
      assert (G2 : isEmpty (getNextJob
                     (released (claimed q p1 o1 ms) p2 o2
                        (storedMessages (claimed q p1 o1 ms)))) = true)
        by now rewrite released_free.
      repeat split.
      * exact G2.
      * unfold nextJob; simpl. now rewrite G2.
      * intros p3 o3.
        destruct (createJob_ok _ p3 o3 S2 G2) as (E3 & _).
        eauto.
Qed.

Lemma pending_job_derivation_witness :
  isEmpty (getNextJob (snd Samples.afterRelease)) = true
  /\ exists c3 q3,
      createJob "payload-2" Samples.unsignedOptions (snd Samples.afterRelease)
      = (Return c3, q3).
Proof.
  destruct pending_job_derivation as (_ & _ & _ & _ & H).
  destruct (H Samples.freshQueue "  payload-1 " Samples.unsignedOptions
              (mkCommit "1a5f") (snd Samples.afterClaim)
              "payload-1" Samples.unsignedOptions
              (mkCommit "2b6e") (snd Samples.afterRelease))
    as (A & _ & B).
  - vm_compute. reflexivity.
  - vm_compute. reflexivity.
  - split; [exact A | exact (B "payload-2" Samples.unsignedOptions)].
Defined.

(** C4 -- A pending job blocks [createJob].  Whenever [getNextJob] reports
    a job, [createJob] throws, for every payload, the error whose message
    ends with the identifier of the blocking commit, which is the most
    recent event.  In particular, on a well-behaved repository, a
    [createJob] that follows one that returned throws that error naming the
    commit the first one returned. *)
Theorem createJob_rejects_pending_job :
  (forall q p o,
      isEmpty (getNextJob q) = false ->
      fst (createJob p o q) = Throw (jobAlreadyPending (commitHash (getNextJob q)))
      /\ getNextJob q = getLatestMessage q
      /\ endsWith (error_message (jobAlreadyPending (commitHash (getNextJob q))))
                  (commitHash (getNextJob q)) = true)
  /\ (forall q p1 o1 c1 q1,
         wellBehaved (git q) = true ->
         createJob p1 o1 q = (Return c1, q1) ->
         forall p2 o2,
           fst (createJob p2 o2 q1) = Throw (jobAlreadyPending (commit_hash c1))).
Proof.
  split.
  - intros q p o G. repeat split.
    + now rewrite createJob_unfold, G.
    + revert G. unfold getNextJob.
      destruct (isStoredCreateJobMessage (getLatestMessage q)); [reflexivity|].
      discriminate.
    + exact (endsWith_append
               "Can't create a new job. There is already a pending job in commit: "
               (commitHash (getNextJob q))).
  - intros q p1 o1 c1 q1 Hwb H1 p2 o2.
    apply createJob_return_read in H1 as (_ & -> & _ & _ & ms & _ & ->);
      [|assumption].
    rewrite createJob_unfold, claimed_pending. reflexivity.
Qed.

Lemma createJob_rejects_pending_job_witness :
  fst (createJob "payload-2" Samples.unsignedOptions (snd Samples.afterClaim))
  = Throw (jobAlreadyPending "1a5f").
Proof.
  destruct createJob_rejects_pending_job as (H1 & H2).
  assert (G : isEmpty (getNextJob (snd Samples.afterClaim)) = false)
    by (vm_compute; reflexivity).
  destruct (H1 (snd Samples.afterClaim) "payload-2" Samples.unsignedOptions G)
    as (_ & _ & _).
  apply (H2 Samples.freshQueue "  payload-1 " Samples.unsignedOptions
            (mkCommit "1a5f") (snd Samples.afterClaim)).
  - vm_compute. reflexivity.
  - vm_compute. reflexivity.
Defined.

(** C5 -- [markJobAsDone] needs a pending job.  Whenever [getNextJob]
    reports nothing, [markJobAsDone] throws the no-pending-job error, for
    every payload.  When it returns, a job was pending, and the branch tip
    is a new commit whose subject is the release subject of the queue's
    name, whose body is the payload and whose identifier is the one
    returned. *)
Theorem markJobAsDone_requires_pending_job :
  (forall q p o,
      isEmpty (getNextJob q) = true ->
      fst (markJobAsDone p o q) = Throw noPendingJob)
  /\ (forall q p o c q',
         markJobAsDone p o q = (Return c, q') ->
         isEmpty (getNextJob q) = false
         /\ exists nc,
             history (git q') = nc :: history (git q)
             /\ message nc = MARK_JOB_AS_DONE_SUBJECT_PREFIX ++ name q
             /\ body nc = p
             /\ hash nc = commit_hash c).
Proof.
  split.
  - intros q p o G. now rewrite markJobAsDone_unfold, G.
  - intros q p o c q' H.
    apply markJobAsDone_return in H as (G & -> & H).
    split; [exact G|].
    exists (releaseCommit q p o).
    assert (Hh : history (git q') = releaseCommit q p o :: history (git q)).
    { destruct H as [-> | (_ & _ & ms & _ & ->)];
        [destruct (written_facts q (releaseLines q p) o (storedMessages q))
           as (_ & _ & _ & _ & _ & _ & Hh)
        |destruct (written_facts q (releaseLines q p) o
                     (StoredMarkJobAsDoneMessage (releaseCommit q p o) :: ms))
           as (_ & _ & _ & _ & _ & _ & Hh)];
        exact Hh. }
    repeat split; [exact Hh].
Qed.

Lemma markJobAsDone_requires_pending_job_witness :
  fst (markJobAsDone "payload-1" Samples.unsignedOptions Samples.freshQueue)
  = Throw noPendingJob
  /\ isEmpty (getNextJob (snd Samples.afterClaim)) = false.
Proof.
  destruct markJobAsDone_requires_pending_job as (H1 & H2).
  split.
  - apply H1. vm_compute. reflexivity.
  - apply (H2 (snd Samples.afterClaim) "payload-1" Samples.unsignedOptions
              (mkCommit "2b6e") (snd Samples.afterRelease)).
    vm_compute. reflexivity.
Defined.

Lemma create_reads (n dir : string) (g : Git) (ms : list StoredMessage) :
  isRepo g = true -> log_fault g = None -> history g <> [] ->
  eventsOf (mkQueue n dir g []) g = Return ms ->
  create n dir g = Return (mkQueue n dir g ms).
Proof.
  intros Hr Hl Hh He. unfold create.
  now rewrite (load_ok (mkQueue n dir g []) ms Hr Hl Hh He).
Qed.

Lemma create_bootstrap (n dir : string) (g : Git) :
  isRepo g = true -> log_fault g = None -> history g = [] ->
  create n dir g = Return (mkQueue n dir g []).
Proof.
  intros Hr Hl Hh.
  unfold create, loadMessagesFromGit, readMessages, log, checkIsRepo, status.
  simpl. rewrite Hr, Hl, Hh. simpl error_message.
  now rewrite includes_refl.
Qed.

(* ------------------------------------------------------------------ *)
(** ** Writes on a collaborator that answers *)

Lemma load_keeps_repository (q : Queue) :
  name (snd (loadMessagesFromGit q)) = name q
  /\ gitRepoDir (snd (loadMessagesFromGit q)) = gitRepoDir q
  /\ git (snd (loadMessagesFromGit q)) = git q.
Proof.
  unfold loadMessagesFromGit.
  destruct (negb (checkIsRepo (git q))); [now repeat split|].
  cbv zeta. destruct (readMessages q) as [ms|e]; [now repeat split|].
  destruct (includes _ _); now repeat split.
Qed.

Lemma load_throw (q q' : Queue) (e : Error) :
  loadMessagesFromGit q = (Throw e, q') -> q' = q.
Proof.
  unfold loadMessagesFromGit.
  destruct (negb (checkIsRepo (git q))); [now intros [= _ <-]|].
  cbv zeta. destruct (readMessages q) as [ms|e']; [discriminate|].
  destruct (includes _ _); [discriminate|]. now intros [= _ <-].
Qed.

(** With the answers of the interface the writes are the queue's own. *)
Lemma observed_interface (p : string) (o : CommitOptions) (q : Queue) :
  Observed.createJob interfaceAnswers p o q = createJob p o q
  /\ Observed.markJobAsDone interfaceAnswers p o q = markJobAsDone p o q.
Proof. split; reflexivity. Qed.

Lemma observed_settled_facts (q : Queue) (nc : DefaultLogFields)
    (ms : list StoredMessage) :
  name (Observed.settled q nc ms) = name q
  /\ storedMessages (Observed.settled q nc ms) = ms
  /\ isRepo (git (Observed.settled q nc ms)) = isRepo (git q)
  /\ log_fault (git (Observed.settled q nc ms)) = log_fault (git q)
  /\ history (git (Observed.settled q nc ms)) = nc :: history (git q)
  /\ exists rh,
      git (Observed.settled q nc ms)
      = withRemoteHistory rh (withHistory (nc :: history (git q)) (git q)).
Proof.
  unfold Observed.settled.
  destruct (push_cases (withStoredMessages ms (Observed.landed q nc)))
    as [-> | ->]; simpl; repeat split.
  - now exists (remote_history (git q)).
  - eexists. reflexivity.
Qed.

Section ObservedWrites.

Variables (a : CommitAnswers) (q : Queue) (lines : list string) (o : CommitOptions).

Let nc := Observed.newCommit a lines (forSimpleGit o) (git q).

Lemma observed_commitAndPush_unfold :
  Observed.commitAndPush a lines o q =
  match commit_fault a with
  | Some e => (Throw e, q)
  | None =>
      match loadMessagesFromGit (Observed.landed q nc) with
      | (Return _, q2) =>
          (Return (mkCommit (reportedId a (hash nc))), snd (push q2))
      | (Throw e, q2) => (Throw e, q2)
      end
  end.
Proof.
  unfold Observed.commitAndPush, Observed.commit, bind, Observed.gitCommit,
    unawaited, ret.
  destruct (commit_fault a); [reflexivity|]. cbv zeta.
  fold nc. fold (Observed.landed q nc).
  now destruct (loadMessagesFromGit _) as [[u|e] q2].
Qed.

(** A write that throws was rejected by the collaborator, and then
    nothing has changed, or it failed while reading the log back, and then
    its commit is on the branch. *)
Lemma observed_commitAndPush_throw (e : Error) (q' : Queue) :
  Observed.commitAndPush a lines o q = (Throw e, q') ->
  (commit_fault a = Some e /\ q' = q)
  \/ (commit_fault a = None /\ q' = Observed.landed q nc).
Proof.
  rewrite observed_commitAndPush_unfold.
  destruct (commit_fault a) as [e0|].
  - intros [= -> <-]. now left.
  - destruct (loadMessagesFromGit _) as [[u|e'] q2] eqn:L; [discriminate|].
    intros [= _ <-]. right. split; [reflexivity|]. exact (load_throw _ _ _ L).
Qed.

Lemma observed_commitAndPush_without_remote :
  remotes (git q) = "" ->
  remote_history (git (snd (Observed.commitAndPush a lines o q)))
  = remote_history (git q).
Proof.
  intros Hr. rewrite observed_commitAndPush_unfold.
  destruct (commit_fault a); [reflexivity|].
  pose proof (load_keeps_repository (Observed.landed q nc)) as (_ & _ & Kg).
  destruct (loadMessagesFromGit _) as [[u|e] q2]; simpl in Kg |- *.
  - unfold push, remote. rewrite Kg. simpl. rewrite Hr. simpl. now rewrite Kg.
  - now rewrite Kg.
Qed.

Variable m : StoredMessage.

Hypothesis Hfactory : messageFactoryFromCommit nc = Return m.
Hypothesis Hbelongs : commitBelongsToQueue q nc = true.

Lemma observed_settled_synced (ms : list StoredMessage) :
  isRepo (git q) = true -> log_fault (git q) = None ->
  eventsOf q (git q) = Return ms ->
  synced (Observed.settled q nc (m :: ms)).
Proof.
  intros Hr Hl He.
  destruct (observed_settled_facts q nc (m :: ms)) as (Hn & Hs & Hr' & Hl' & Hh & _).
  unfold synced. rewrite Hr', Hl', Hs. repeat split; auto.
  rewrite (eventsOf_cons q _ (git q) _ nc m Hn Hh Hfactory Hbelongs).
  now rewrite He.
Qed.

Lemma observed_commitAndPush_ok (ms : list StoredMessage) :
  commit_fault a = None ->
  isRepo (git q) = true -> log_fault (git q) = None ->
  eventsOf q (git q) = Return ms ->
  Observed.commitAndPush a lines o q
  = (Return (mkCommit (reportedId a (hash nc))), Observed.settled q nc (m :: ms)).
Proof.
  intros Hc Hr Hl He. rewrite observed_commitAndPush_unfold, Hc.
  rewrite (load_ok _ (m :: ms)); try assumption; try discriminate.
  - reflexivity.
  - rewrite (eventsOf_cons q _ (git q) _ nc m); try reflexivity; try assumption.
    now rewrite He.
Qed.

Lemma observed_commitAndPush_return_read (c : Commit) (q1 : Queue) :
  wellBehaved (git q) = true ->
  Observed.commitAndPush a lines o q = (Return c, q1) ->
  commit_fault a = None /\ c = mkCommit (reportedId a (hash nc))
  /\ isRepo (git q) = true /\ log_fault (git q) = None
  /\ exists ms, eventsOf q (git q) = Return ms
                /\ q1 = Observed.settled q nc (m :: ms).
Proof.
  unfold wellBehaved. intros Hwb. apply andb_true_iff in Hwb as [Hfault Hhex].
  rewrite observed_commitAndPush_unfold.
  destruct (commit_fault a); [discriminate|].
  destruct (loadMessagesFromGit _) as [[u|e] q2] eqn:L; [|discriminate].
  intros [= <- <-]. split; [reflexivity|]. split; [reflexivity|].
  apply load_return_read in L.
  - destruct L as (Hr & Hl & ms' & He & ->). simpl in Hr, Hl.
    repeat split; try assumption.
    rewrite (eventsOf_cons q _ (git q) _ nc m) in He;
      try reflexivity; try assumption.
    destruct (eventsOf q (git q)) as [ms|e]; [|discriminate].
    injection He as <-. now exists ms.
  - exact Hfault.
  - intros e. rewrite (eventsOf_cons q _ (git q) _ nc m);
      try reflexivity; try assumption.
    destruct (eventsOf q (git q)) as [ms|e'] eqn:He; [discriminate|].
    intros [= <-]. simpl.
    exact (events_throw_not_swallowed q (git q) e' (current (git q)) Hhex He).
  - discriminate.
Qed.

End ObservedWrites.

Section ObservedOperations.

Variables (a : CommitAnswers) (q : Queue) (p : string) (o : CommitOptions).

Lemma observed_createJob_unfold :
  Observed.createJob a p o q =
  if negb (isEmpty (getNextJob q))
  then (Throw (jobAlreadyPending (commitHash (getNextJob q))), q)
  else Observed.commitAndPush a (claimLines q p) o q.
Proof.
  unfold Observed.createJob, bind, guardThatThereIsNoPendingJobs,
    Observed.commitMessage, buildCommitMessage, bind, throw, ret.
  now destruct (negb _).
Qed.

Lemma observed_markJobAsDone_unfold :
  Observed.markJobAsDone a p o q =
  if isEmpty (getNextJob q)
  then (Throw noPendingJob, q)
  else Observed.commitAndPush a (releaseLines q p) o q.
Proof.
  unfold Observed.markJobAsDone, bind, guardThatThereIsAPendingJob,
    Observed.commitMessage, buildCommitMessage, bind, throw, ret.
  now destruct (isEmpty _).
Qed.

Lemma observed_claim_recognized :
  storedSubject a (CREATE_JOB_SUBJECT_PREFIX ++ name q)
  = CREATE_JOB_SUBJECT_PREFIX ++ name q ->
  messageFactoryFromCommit (Observed.claimCommit a q p o)
  = Return (StoredCreateJobMessage (Observed.claimCommit a q p o))
  /\ commitBelongsToQueue q (Observed.claimCommit a q p o) = true.
Proof.
  intros H. split.
  - exact (factory_claim (Observed.claimCommit a q p o) (name q) H).
  - exact (belongs_own q (Observed.claimCommit a q p o) CREATE_JOB_SUBJECT_PREFIX H).
Qed.

Lemma observed_release_recognized :
  storedSubject a (MARK_JOB_AS_DONE_SUBJECT_PREFIX ++ name q)
  = MARK_JOB_AS_DONE_SUBJECT_PREFIX ++ name q ->
  messageFactoryFromCommit (Observed.releaseCommit a q p o)
  = Return (StoredMarkJobAsDoneMessage (Observed.releaseCommit a q p o))
  /\ commitBelongsToQueue q (Observed.releaseCommit a q p o) = true.
Proof.
  intros H. split.
  - exact (factory_release (Observed.releaseCommit a q p o) (name q) H).
  - exact (belongs_own q (Observed.releaseCommit a q p o)
             MARK_JOB_AS_DONE_SUBJECT_PREFIX H).
Qed.

End ObservedOperations.

(** C6 -- Payload round trip, as the collaborator stores it.  On a
    well-behaved repository whose collaborator records the claim subject
    as given, when [createJob] returns a commit, [getNextJob] on the same
    queue object right afterwards, and on a queue of the same name created
    anew on the repository, finds a job.  Its commit identifier is the one
    whose reported form [createJob] returned, and its payload is the body
    the collaborator stored for the submitted payload with white space
    taken off both ends; trimming removes a white-space prefix and suffix
    and nothing else.  So the identifier is the one returned when the
    collaborator reports identifiers in full, and the payload is the
    submitted one, trimmed, when the collaborator stores it as given. *)
Theorem payload_round_trip_as_stored :
  forall a q p o c q',
    wellBehaved (git q) = true ->
    storedSubject a (CREATE_JOB_SUBJECT_PREFIX ++ name q)
    = CREATE_JOB_SUBJECT_PREFIX ++ name q ->
    Observed.createJob a p o q = (Return c, q') ->
    exists h,
      commit_hash c = reportedId a h
      /\ nextJob q' = {| job_found := true;
                         job_commit := Some h;
                         job_payload := Some (trim (storedBody a p)) |}
      /\ body (commitOf (getNextJob q')) = storedBody a p
      /\ (exists q2, create (name q) (gitRepoDir q) (git q') = Return q2
                     /\ nextJob q2 = nextJob q')
      /\ (reportedId a h = h -> job_commit (nextJob q') = Some (commit_hash c))
      /\ (storedBody a p = p -> job_payload (nextJob q') = Some (trim p))
      /\ (exists l r, storedBody a p = l ++ trim (storedBody a p) ++ r
                      /\ allWhiteSpace l = true /\ allWhiteSpace r = true
                      /\ edgeIsWhiteSpace (first (trim (storedBody a p))) = false
                      /\ edgeIsWhiteSpace (last (trim (storedBody a p))) = false).
Proof.
  intros a q p o c q' Hwb Hsubject H.
  destruct (observed_claim_recognized a q p o Hsubject) as (Hf & Hb).
  rewrite observed_createJob_unfold in H.
  destruct (negb (isEmpty (getNextJob q))); [discriminate|].
  apply (observed_commitAndPush_return_read a q (claimLines q p) o _ Hf Hb c q' Hwb)
    in H as (_ & -> & Hr & Hl & ms & He & ->).
  fold (Observed.claimCommit a q p o).
  set (nc := Observed.claimCommit a q p o) in *.
  destruct (observed_settled_facts q nc (StoredCreateJobMessage nc :: ms))
    as (_ & Hs & Hr' & Hl' & Hh & _).
  set (q1 := Observed.settled q nc (StoredCreateJobMessage nc :: ms)) in *.
  assert (G : getNextJob q1 = StoredCreateJobMessage nc)
    by exact (getNextJob_cons q1 _ _ Hs).
  assert (N : nextJob q1 = {| job_found := true;
                              job_commit := Some (hash nc);
                              job_payload := Some (trim (storedBody a p)) |})
    by (unfold nextJob; now rewrite G).
  exists (hash nc). repeat apply conj.
  - reflexivity.
  - exact N.
  - now rewrite G.
  - exists (mkQueue (name q) (gitRepoDir q) (git q1) (StoredCreateJobMessage nc :: ms)).
    split.
    + apply create_reads.
      * now rewrite Hr'.
      * now rewrite Hl'.
      * rewrite Hh. discriminate.
      * rewrite (eventsOf_cons q (mkQueue (name q) (gitRepoDir q) (git q1) [])
                   (git q) _ nc (StoredCreateJobMessage nc) eq_refl Hh Hf Hb).
        now rewrite He.
    + now rewrite N.
  - intros E. rewrite N. cbn [job_commit commit_hash]. now rewrite E.
  - intros E. rewrite N. cbn [job_payload]. now rewrite E.
  - exact (trim_decompose (storedBody a p)).
Qed.

Lemma payload_round_trip_as_stored_witness :
  exists h,
    GitAnswers.abbreviate h = "38881be"
    /\ nextJob (snd GitSamples.afterClaim)
       = {| job_found := true; job_commit := Some h;
            job_payload :=
              Some ("first line" ++ String GitAnswers.lineFeed "second line") |}.
Proof.
  destruct (payload_round_trip_as_stored GitAnswers.answers GitSamples.freshQueue
              GitSamples.twoLines Samples.unsignedOptions (mkCommit "38881be")
              (snd GitSamples.afterClaim))
    as (h & Hh & Hn & _).
  - vm_compute. reflexivity.
  - vm_compute. reflexivity.
  - vm_compute. reflexivity.
  - exists h. split; [symmetry; exact Hh | exact Hn].
Defined.

(** C6, as stated, fails: with git's answers [createJob] returns the
    abbreviated identifier while [getNextJob] lists the full one, and a
    payload with blanks at the end of its first line comes back without
    them, which is not the payload with only its edges trimmed. *)
Lemma payload_round_trip_counterexample :
  fst GitSamples.afterClaim = Return (mkCommit "38881be")
  /\ job_found (nextJob (snd GitSamples.afterClaim)) = true
  /\ job_commit (nextJob (snd GitSamples.afterClaim)) <> Some "38881be"
  /\ job_payload (nextJob (snd GitSamples.afterClaim))
     <> Some (trim GitSamples.twoLines).
Proof.
  repeat apply conj.
  - vm_compute. reflexivity.
  - vm_compute. reflexivity.
  - vm_compute. discriminate.
  - vm_compute. discriminate.
Qed.

(** C7 -- Empty-repository bootstrap.  Creating a queue on a repository
    whose branch has no commits yet returns a queue with no events, on which
    [getNextJob] finds nothing and every [createJob] returns a commit; a
    load on such a branch returns and leaves the snapshot as it is.  Any
    other failure of the log read is thrown on as it came, and a path that
    is not a repository makes the load, and so the creation, throw the
    invalid-directory error. *)
Theorem empty_repository_bootstrap :
  (forall n dir g,
      isRepo g = true -> log_fault g = None -> history g = [] ->
      create n dir g = Return (mkQueue n dir g [])
      /\ job_found (nextJob (mkQueue n dir g [])) = false
      /\ forall p o, exists c q', createJob p o (mkQueue n dir g []) = (Return c, q'))
  /\ (forall q,
         isRepo (git q) = true -> log_fault (git q) = None -> history (git q) = [] ->
         loadMessagesFromGit q = (Return tt, q))
  /\ (forall q e,
         isRepo (git q) = true -> log (git q) = Throw e ->
         includes (error_message e) (noCommitsYet (current (git q))) = false ->
         loadMessagesFromGit q = (Throw e, q)
         /\ create (name q) (gitRepoDir q) (git q) = Throw e)
  /\ (forall q,
         isRepo (git q) = false ->
         loadMessagesFromGit q = (Throw (mkError ("Invalid git dir: " ++ gitRepoDir q)), q)
         /\ create (name q) (gitRepoDir q) (git q)
            = Throw (mkError ("Invalid git dir: " ++ gitRepoDir q))).
Proof.
  repeat apply conj.
  - intros n dir g Hr Hl Hh. split; [|split].
    + now apply create_bootstrap.
    + reflexivity.
    + intros p o.
      assert (S : synced (mkQueue n dir g [])).
      { unfold synced, eventsOf. simpl. repeat split; try assumption.
        now rewrite Hh. }
      destruct (createJob_ok (mkQueue n dir g []) p o S eq_refl) as (E & _).
      eauto.
  - intros q Hr Hl Hh.
    unfold loadMessagesFromGit, readMessages, log, checkIsRepo, status.
    rewrite Hr, Hl, Hh. cbn [negb error_message]. cbv zeta.
    now rewrite includes_refl.
  - intros q e Hr Hlog Hother.
    unfold create, loadMessagesFromGit, readMessages, checkIsRepo, status.
    simpl. now rewrite Hr, Hlog, Hother.
  - intros q Hr.
    unfold create, loadMessagesFromGit, checkIsRepo. simpl. now rewrite Hr.
Qed.

Lemma empty_repository_bootstrap_witness :
  create "Q" "/repo" Samples.emptyRepo = Return Samples.freshQueue
  /\ loadMessagesFromGit Samples.freshQueue = (Return tt, Samples.freshQueue)
  /\ create "Q" "/repo" Samples.brokenRepo
     = Throw (mkError "fatal: unable to read tree")
  /\ create "Q" "/tmp" Samples.notARepo = Throw (mkError "Invalid git dir: /tmp").
Proof.
  destruct empty_repository_bootstrap as (H1 & H2 & H3 & H4).
  repeat apply conj.
  - apply (H1 "Q" "/repo" Samples.emptyRepo); reflexivity.
  - apply (H2 Samples.freshQueue); reflexivity.
  - apply (H3 (mkQueue "Q" "/repo" Samples.brokenRepo [])
              (mkError "fatal: unable to read tree")); reflexivity.
  - apply (H4 (mkQueue "Q" "/tmp" Samples.notARepo [])); reflexivity.
Defined.

(** C10 -- A failing guard writes nothing.  When a job is pending,
    [createJob] throws and leaves the queue object and its repository as
    they were: same branch history, same remote tip, same loaded events.
    The same holds for [markJobAsDone] when no job is pending. *)
Theorem guard_failure_is_atomic :
  (forall q p o,
      isEmpty (getNextJob q) = false ->
      isReturn (fst (createJob p o q)) = false
      /\ snd (createJob p o q) = q
      /\ history (git (snd (createJob p o q))) = history (git q)
      /\ remote_history (git (snd (createJob p o q))) = remote_history (git q)
      /\ storedMessages (snd (createJob p o q)) = storedMessages q)
  /\ (forall q p o,
         isEmpty (getNextJob q) = true ->
         isReturn (fst (markJobAsDone p o q)) = false
         /\ snd (markJobAsDone p o q) = q
         /\ history (git (snd (markJobAsDone p o q))) = history (git q)
         /\ remote_history (git (snd (markJobAsDone p o q))) = remote_history (git q)
         /\ storedMessages (snd (markJobAsDone p o q)) = storedMessages q).
Proof.
  split; intros q p o G.
  - rewrite createJob_unfold, G. simpl. auto.
  - rewrite markJobAsDone_unfold, G. simpl. auto.
Qed.

Lemma guard_failure_is_atomic_witness :
  snd (createJob "payload-2" Samples.unsignedOptions (snd Samples.afterClaim))
  = snd Samples.afterClaim
  /\ snd (markJobAsDone "payload-1" Samples.unsignedOptions Samples.freshQueue)
     = Samples.freshQueue.
Proof.
  destruct guard_failure_is_atomic as (H1 & H2).
  split.
  - apply (H1 (snd Samples.afterClaim) "payload-2" Samples.unsignedOptions).
    vm_compute. reflexivity.
  - apply (H2 Samples.freshQueue "payload-1" Samples.unsignedOptions).
    vm_compute. reflexivity.
Defined.

(** C8 -- Signing directives, as the code issues them.  The option object
    carries the sign-with-key directive exactly when a key is present and
    the no-sign directive exactly when the suppress flag is set, each
    independently of the other.  So it carries what the specification
    prescribes (the key, else the suppression, else nothing) unless a key
    and the suppress flag come together, in which case both directives are
    passed, the key first. *)
Theorem signing_directives_independent :
  forall o,
    signingDirectives (forSimpleGit o)
    = (spreadIf (negb (key_isEmpty (gpgSig o)))
         [("--gpg-sign", Some (key_toString (gpgSig o)))]
       ++ spreadIf (noGpgSig o) [("--no-gpg-sign", None)])%list
    /\ hasOption "--gpg-sign" (forSimpleGit o) = negb (key_isEmpty (gpgSig o))
    /\ hasOption "--no-gpg-sign" (forSimpleGit o) = noGpgSig o
    /\ signingDirectives (forSimpleGit o)
       = if negb (key_isEmpty (gpgSig o)) && noGpgSig o
         then [("--gpg-sign", Some (key_toString (gpgSig o)));
               ("--no-gpg-sign", None)]
         else specSigningDirectives o.
Proof.
  intros [[ae at_] [ke kt] n]. unfold forSimpleGit, specSigningDirectives.
  simpl author. simpl gpgSig. simpl noGpgSig.
  simpl author_isEmpty. simpl key_isEmpty. simpl key_toString.
  destruct ae, ke, n; repeat split.
Qed.

(** C8, as stated, fails: with a key and the suppress flag both set the
    option object carries two signing directives, not the single one
    prescribed. *)
Lemma signing_discipline_counterexample :
  signingDirectives (forSimpleGit Samples.keyAndSuppress)
  = [("--gpg-sign", Some "BD98B3F42545FF93EFF55F7F3F39AA1432CA6AD7");
     ("--no-gpg-sign", None)]
  /\ signingDirectives (forSimpleGit Samples.keyAndSuppress)
     <> specSigningDirectives Samples.keyAndSuppress
  /\ ~ (List.length (signingDirectives (forSimpleGit Samples.keyAndSuppress)) <= 1).
Proof.
  repeat split.
  - discriminate.
  - simpl. lia.
Qed.

(** C1 -- Queue names are not isolated.  A commit belongs to a queue as
    soon as its subject ends with the queue's name.  On a fresh repository
    a job created on the queue named nightly-build is the job that a queue
    named build, created afterwards on the same repository, finds next. *)
Theorem queue_names_conflated_by_suffix :
  (forall q c, commitBelongsToQueue q c = endsWith (message c) (name q))
  /\ fst Samples.afterNightlyClaim = Return (mkCommit "1a5f")
  /\ exists qb,
      create "build" "/repo" (git (snd Samples.afterNightlyClaim)) = Return qb
      /\ nextJob qb = {| job_found := true; job_commit := Some "1a5f";
                         job_payload := Some "job-for-nightly" |}.
Proof.
  split; [|split].
  - intros q c. unfold commitBelongsToQueue. now destruct (endsWith _ _).
  - vm_compute. reflexivity.
  - eexists. split; vm_compute; reflexivity.
Qed.

(** C2 -- A rejected push is not reported.  The outcome of
    [commitAndPush] is the outcome of [commit], whatever the push does.  On
    a repository whose remote rejects the push, [createJob] returns the new
    commit; the push on the resulting repository throws, and the remote tip
    stays behind the branch. *)
Theorem push_rejection_not_propagated :
  (forall q lines o, fst (commitAndPush lines o q) = fst (commit lines o q))
  /\ fst Samples.rejectedClaim = Return (mkCommit "1a5f")
  /\ fst (gitPush (snd Samples.rejectedClaim))
     = Throw (mkError "! [rejected] main -> main (fetch first)")
  /\ List.length (history (git (snd Samples.rejectedClaim))) = 1
  /\ remote_history (git (snd Samples.rejectedClaim)) = [].
Proof.
  split.
  - intros q lines o. unfold commitAndPush, bind, unawaited, ret.
    now destruct (commit lines o q) as [[c|e] q'].
  - repeat split; vm_compute; reflexivity.
Qed.

(** C9 -- The unrecognized-event error is reachable.  An ordinary commit
    whose subject ends with the queue's name passes the belongs-to-queue
    filter and carries neither prefix, so the factory throws and creating
    the queue fails with that error. *)
Theorem unrecognized_event_reachable :
  commitBelongsToQueue (mkQueue "deploy" "/repo" Samples.projectRepo [])
    Samples.projectCommit = true
  /\ messageFactoryFromCommit Samples.projectCommit
     = Throw (invalidQueueMessage Samples.projectCommit)
  /\ create "deploy" "/repo" Samples.projectRepo
     = Throw (mkError "Invalid queue message in commit: 0e9b").
Proof.
  repeat split; vm_compute; reflexivity.
Qed.

(* ------------------------------------------------------------------ *)
(** ** Further properties of the queue *)

Lemma factory_return (c : DefaultLogFields) (m : StoredMessage) :
  messageFactoryFromCommit c = Return m -> commitOf m = c /\ isEmpty m = false.
Proof.
  unfold messageFactoryFromCommit.
  destruct (startsWith _ CREATE_JOB_SUBJECT_PREFIX); [now intros [= <-]|].
  destruct (startsWith _ MARK_JOB_AS_DONE_SUBJECT_PREFIX); [now intros [= <-]|].
  discriminate.
Qed.

Lemma events_return (cs : list DefaultLogFields) (ms : list StoredMessage) :
  mapOutcome messageFactoryFromCommit cs = Return ms ->
  map commitOf ms = cs /\ forallb (fun m => negb (isEmpty m)) ms = true.
Proof.
  revert ms; induction cs as [|c cs IH]; simpl; intros ms.
  - now intros [= <-].
  - destruct (messageFactoryFromCommit c) as [m|e] eqn:Fc; [|discriminate].
    destruct (mapOutcome messageFactoryFromCommit cs) as [ms'|e]; [|discriminate].
    intros [= <-]. destruct (factory_return c m Fc) as (Hc & Hm).
    destruct (IH ms' eq_refl) as (Hcs & Hms).
    simpl. now rewrite Hc, Hcs, Hm, Hms.
Qed.

(** X1 -- The snapshot of a new queue is the filtered log.  On a
    well-behaved repository, a queue that [create] returns is bound to the
    repository as given, and its stored messages are, in log order, exactly
    the commits whose subject ends with the queue's name; none of them is
    the empty message. *)
Theorem snapshot_is_filtered_log :
  forall n dir g q,
    wellBehaved g = true ->
    create n dir g = Return q ->
    name q = n /\ gitRepoDir q = dir /\ git q = g
    /\ map commitOf (storedMessages q)
       = filter (fun c => endsWith (message c) n) (history g)
    /\ forallb (fun m => negb (isEmpty m)) (storedMessages q) = true.
Proof.
  intros n dir g q Hwb. unfold create.
  destruct (loadMessagesFromGit (mkQueue n dir g [])) as [[u|e] q'] eqn:L;
    [|discriminate].
  intros [= <-].
  pose proof (load_keeps_repository (mkQueue n dir g [])) as K.
  rewrite L in K. simpl in K. destruct K as (Kn & Kd & Kg).
  repeat apply conj; try assumption.
  - assert (Hcase : history g = [] \/ history g <> [])
      by (destruct (history g); [left | right]; congruence).
    destruct Hcase as [Hh | Hh].
    + apply load_return in L as [-> | (_ & _ & Hne & _)]; [now rewrite Hh|].
      simpl in Hne. congruence.
    + unfold wellBehaved in Hwb. apply andb_true_iff in Hwb as [Hf Hx].
      apply load_return_read in L.
      * destruct L as (_ & _ & ms & He & ->).
        unfold eventsOf in He. apply events_return in He as (He & _).
        change (map commitOf ms
                = filter (fun c => endsWith (message c) n) (history g)).
        rewrite He. apply filter_ext. intros c.
        unfold commitBelongsToQueue. simpl. now destruct (endsWith _ _).
      * exact Hf.
      * intros e He.
        exact (events_throw_not_swallowed _ g e (current g) Hx He).
      * exact Hh.
  - apply load_return in L as [-> | (_ & _ & _ & ms & He & ->)]; [reflexivity|].
    simpl. now apply events_return in He.
Qed.

Lemma snapshot_is_filtered_log_witness :
  map commitOf (storedMessages (snd Samples.afterClaim))
  = filter (fun c => endsWith (message c) "Q")
      (history (git (snd Samples.afterClaim))).
Proof.
  apply (snapshot_is_filtered_log "Q" "/repo" (git (snd Samples.afterClaim))
           (snd Samples.afterClaim)).
  - vm_compute. reflexivity.
  - vm_compute. reflexivity.
Defined.

(** X2 -- A failure after the guard: nothing, or the commit alone.  When
    the guard of [createJob] (of [markJobAsDone]) lets the call through
    and the call then throws, either the collaborator rejected the commit,
    and then the error is its own and queue and repository are as before;
    or the commit was made and reading the log back failed, and then the
    new commit is the branch tip while the loaded events and the remote
    tip are as before. *)
Theorem failure_after_guard_is_partial :
  (forall a q p o e q',
      isEmpty (getNextJob q) = true ->
      Observed.createJob a p o q = (Throw e, q') ->
      (commit_fault a = Some e /\ q' = q)
      \/ (commit_fault a = None
          /\ history (git q') = Observed.claimCommit a q p o :: history (git q)
          /\ storedMessages q' = storedMessages q
          /\ remote_history (git q') = remote_history (git q)))
  /\ (forall a q p o e q',
         isEmpty (getNextJob q) = false ->
         Observed.markJobAsDone a p o q = (Throw e, q') ->
         (commit_fault a = Some e /\ q' = q)
         \/ (commit_fault a = None
             /\ history (git q') = Observed.releaseCommit a q p o :: history (git q)
             /\ storedMessages q' = storedMessages q
             /\ remote_history (git q') = remote_history (git q))).
Proof.
  split; intros a q p o e q' G H.
  - rewrite observed_createJob_unfold, G in H. simpl negb in H. cbv iota in H.
    apply observed_commitAndPush_throw in H as [(Hc & ->) | (Hc & ->)];
      [now left | right; now repeat split].
  - rewrite observed_markJobAsDone_unfold, G in H.
    apply observed_commitAndPush_throw in H as [(Hc & ->) | (Hc & ->)];
      [now left | right; now repeat split].
Qed.

Lemma failure_after_guard_is_partial_witness :
  snd GitSamples.rejectedCommit = GitSamples.freshQueue
  /\ List.length (history (git (snd GitSamples.unreadableClaim))) = 1.
Proof.
  destruct failure_after_guard_is_partial as (H & _).
  split.
  - destruct (H (GitAnswers.rejecting (mkError "error: gpg failed to sign the data"))
                GitSamples.freshQueue "payload-1" Samples.unsignedOptions
                (mkError "error: gpg failed to sign the data")
                (snd GitSamples.rejectedCommit))
      as [(_ & E) | (C & _)].
    + vm_compute. reflexivity.
    + vm_compute. reflexivity.
    + exact E.
    + discriminate C.
  - destruct (H GitAnswers.answers (mkQueue "Q" "/repo" Samples.brokenRepo [])
                "payload-1" Samples.unsignedOptions
                (mkError "fatal: unable to read tree")
                (snd GitSamples.unreadableClaim))
      as [(C & _) | (_ & Hh & _)].
    + vm_compute. reflexivity.
    + vm_compute. reflexivity.
    + discriminate C.
    + rewrite Hh. reflexivity.
Defined.

(** X3 -- Without a remote nothing is pushed.  On a repository without a
    configured remote neither [createJob] nor [markJobAsDone] changes the
    remote tip, whatever the collaborator answers and whatever their
    outcome. *)
Theorem no_remote_no_push :
  forall a q p o,
    remotes (git q) = "" ->
    remote_history (git (snd (Observed.createJob a p o q))) = remote_history (git q)
    /\ remote_history (git (snd (Observed.markJobAsDone a p o q)))
       = remote_history (git q).
Proof.
  intros a q p o Hr. split.
  - rewrite observed_createJob_unfold. destruct (negb _); [reflexivity|].
    now apply observed_commitAndPush_without_remote.
  - rewrite observed_markJobAsDone_unfold. destruct (isEmpty _); [reflexivity|].
    now apply observed_commitAndPush_without_remote.
Qed.

Lemma no_remote_no_push_witness :
  remote_history (git (snd GitSamples.afterClaim)) = [].
Proof.
  apply (no_remote_no_push GitAnswers.answers GitSamples.freshQueue
           GitSamples.twoLines Samples.unsignedOptions).
  reflexivity.
Defined.

Lemma alternating_claim (c : DefaultLogFields) (ms : list StoredMessage) :
  alternating ms = true ->
  match ms with
  | StoredCreateJobMessage _ :: _ => false
  | _ => true
  end = true ->
  alternating (StoredCreateJobMessage c :: ms) = true.
Proof.
  destruct ms as [|[c'|c'|c'] rest]; simpl; intros Ha Hg;
    try reflexivity; try discriminate; exact Ha.
Qed.

Lemma alternating_release (c : DefaultLogFields) (ms : list StoredMessage) :
  alternating ms = true ->
  match ms with
  | StoredCreateJobMessage _ :: _ => true
  | _ => false
  end = true ->
  alternating (StoredMarkJobAsDoneMessage c :: ms) = true.
Proof.
  destruct ms as [|[c'|c'|c'] rest]; simpl; intros Ha Hg;
    try reflexivity; try discriminate; exact Ha.
Qed.

Lemma guard_reads_head (q : Queue) :
  isEmpty (getNextJob q)
  = match storedMessages q with
    | StoredCreateJobMessage _ :: _ => false
    | _ => true
    end.
Proof.
  unfold getNextJob, getLatestMessage, queueIsEmpty.
  now destruct (storedMessages q) as [|[c|c|c] rest].
Qed.

(** X4 -- Claims and releases take turns.  On a queue whose snapshot is
    the readable log and whose events alternate (most recent first, oldest
    a claim), every [createJob] and every [markJobAsDone] that returns
    leaves such a queue again: the guards never let two claims, or two
    releases, follow one another. *)
Theorem writes_keep_alternation :
  forall q p o c q',
    synced q -> alternating (storedMessages q) = true ->
    (createJob p o q = (Return c, q') \/ markJobAsDone p o q = (Return c, q')) ->
    synced q' /\ alternating (storedMessages q') = true
    /\ List.length (storedMessages q') = S (List.length (storedMessages q)).
Proof.
  intros q p o c q' S A [H | H].
  - pose proof H as H0. apply createJob_return in H0 as (G & _).
    destruct (createJob_ok q p o S G) as (E & S').
    rewrite E in H. injection H as _ <-.
    destruct (written_facts q (claimLines q p) o
                (StoredCreateJobMessage (claimCommit q p o) :: storedMessages q))
      as (_ & _ & Hs & _).
    fold (claimed q p o (storedMessages q)) in Hs.
    repeat split; try apply S'; rewrite Hs; [|reflexivity].
    apply alternating_claim; [exact A|].
    rewrite guard_reads_head in G.
    now destruct (storedMessages q) as [|[c'|c'|c'] rest].
  - pose proof H as H0. apply markJobAsDone_return in H0 as (G & _).
    destruct (markJobAsDone_ok q p o S G) as (E & S').
    rewrite E in H. injection H as _ <-.
    destruct (written_facts q (releaseLines q p) o
                (StoredMarkJobAsDoneMessage (releaseCommit q p o) :: storedMessages q))
      as (_ & _ & Hs & _).
    fold (released q p o (storedMessages q)) in Hs.
    repeat split; try apply S'; rewrite Hs; [|reflexivity].
    apply alternating_release; [exact A|].
    rewrite guard_reads_head in G.
    now destruct (storedMessages q) as [|[c'|c'|c'] rest].
Qed.

Lemma writes_keep_alternation_witness :
  alternating (storedMessages (snd Samples.afterRelease)) = true.
Proof.
  assert (S0 : synced Samples.freshQueue) by (repeat split).
  destruct (writes_keep_alternation Samples.freshQueue "  payload-1 "
              Samples.unsignedOptions (mkCommit "1a5f") (snd Samples.afterClaim)
              S0 eq_refl) as (S1 & A1 & _).
  - left. vm_compute. reflexivity.
  - destruct (writes_keep_alternation (snd Samples.afterClaim) "payload-1"
                Samples.unsignedOptions (mkCommit "2b6e") (snd Samples.afterRelease)
                S1 A1) as (_ & A2 & _).
    + right. vm_compute. reflexivity.
    + exact A2.
Defined.

(* ------------------------------------------------------------------ *)
(** ** Further properties of the commit options *)

Lemma endsWith_append_left (a s p : string) :
  endsWith s p = true -> endsWith (a ++ s) p = true.
Proof.
  intros H. induction a as [|c a IH]; simpl; [exact H|].
  rewrite IH. apply orb_true_r.
Qed.

Lemma last_append_cons (a : string) (c : ascii) (b : string) :
  last (a ++ String c b) = last (String c b).
Proof.
  induction a as [|d a IH]; [reflexivity|].
  change (last (String d (a ++ String c b)) = last (String c b)).
  rewrite <- IH. now destruct a.
Qed.

Lemma last_cons_append (d : ascii) (a : string) (c : ascii) (b : string) :
  last (String d (a ++ String c b)) = last (String c b).
Proof. exact (last_append_cons (String d a) c b). Qed.

Lemma endsWith_cons (c : ascii) (s p : string) :
  endsWith (String c s) p = String.eqb (String c s) p || endsWith s p.
Proof. reflexivity. Qed.

Lemma endsWith_nil (p : string) : endsWith "" p = true -> p = "".
Proof. destruct p; [reflexivity | discriminate]. Qed.

Lemma endsWith_last (s p : string) :
  p <> "" -> endsWith s p = true -> last s = last p.
Proof.
  intros Hp. induction s as [|c s IH].
  - intros H. now apply endsWith_nil in H.
  - rewrite endsWith_cons. intros H. apply orb_true_iff in H as [H | H].
    + apply String.eqb_eq in H. now rewrite <- H.
    + rewrite <- (IH H). destruct s; [|reflexivity].
      now apply endsWith_nil in H.
Qed.

(** X5 -- The printed options agree with the options passed.  The textual
    form always starts with the allow-empty flag, and it ends with the
    no-sign flag exactly when the suppress flag is set, which is exactly
    when the option object carries the no-sign key. *)
Theorem toString_agrees_on_suppression :
  forall o,
    startsWith (toString o) "--allow-empty " = true
    /\ endsWith (toString o) "--no-gpg-sign" = noGpgSig o
    /\ endsWith (toString o) "--no-gpg-sign"
       = hasOption "--no-gpg-sign" (forSimpleGit o).
Proof.
  intros o.
  assert (E : endsWith (toString o) "--no-gpg-sign" = noGpgSig o).
  { unfold toString. cbv zeta. destruct (noGpgSig o).
    - do 6 apply endsWith_append_left. reflexivity.
    - destruct (endsWith _ _) eqn:H; [|reflexivity].
      apply endsWith_last in H; [|discriminate].
      set (A := if author_isEmpty (author o) then _ else _) in H.
      set (G := if key_isEmpty (gpgSig o) then _ else _) in H.
      change (last ("--allow-empty" ++ String " " (A ++ String " " (G ++ String " " "")))
              = last "--no-gpg-sign") in H.
      rewrite last_append_cons, !last_cons_append in H.
      vm_compute in H. discriminate H. }
  split; [|split].
  - exact (startsWith_append "--allow-empty " _).
  - exact E.
  - rewrite E. destruct o as [[ae at_] [ke kt] n].
    now destruct ae, ke, n.
Qed.

(** X6 -- The option object is well formed.  Its keys are pairwise
    distinct and the allow-empty flag comes first; the author key is
    present exactly when the author is not empty, and then its value is the
    author's text between double quotes. *)
Theorem forSimpleGit_well_formed :
  forall o,
    NoDup (map fst (forSimpleGit o))
    /\ List.hd_error (forSimpleGit o) = Some ("--allow-empty", None)
    /\ hasOption "--author" (forSimpleGit o) = negb (author_isEmpty (author o))
    /\ (forall v, In ("--author", v) (forSimpleGit o) ->
                  v = Some (dquote ++ author_toString (author o) ++ dquote)).
Proof.
  intros [[ae at_] [ke kt] n].
  unfold forSimpleGit. cbn [author gpgSig noGpgSig author_isEmpty key_isEmpty
                             author_toString key_toString].
  destruct ae, ke, n; cbn [negb spreadIf app map fst];
    (split; [repeat (apply NoDup_cons; [simpl; intuition discriminate|]);
             apply NoDup_nil|]);
    (split; [reflexivity|]); (split; [reflexivity|]);
    intros v Hin; cbn [In] in Hin; intuition (try discriminate);
    match goal with
    | H : (_, _) = (_, _) |- _ => injection H as <-; reflexivity
    end.
Qed.

(* ------------------------------------------------------------------ *)
(** ** Properties of the earlier queue *)

Section EarlierQueueFacts.

Import EarlierQueue.

Lemma append_cancel_left (p a b : string) : p ++ a = p ++ b -> a = b.
Proof.
  induction p as [|c p IH]; simpl; [auto|].
  intros [= H]. auto.
Qed.

Lemma earlier_belongs_iff (q : Queue) (c : DefaultLogFields) :
  commitBelongsToQueue q c = true <->
  message c = createJobCommitSubject q \/ message c = markJobAsDoneCommitSubject q.
Proof.
  unfold commitBelongsToQueue, isCreateJobCommit, isMarkJobAsDoneCommit.
  destruct (String.eqb_spec (message c) (createJobCommitSubject q)) as [E1 | N1];
    destruct (String.eqb_spec (message c) (markJobAsDoneCommitSubject q)) as [E2 | N2];
    simpl; intuition discriminate.
Qed.

Lemma earlier_foreign_subject (n a : string) (q : Queue) (c : DefaultLogFields) :
  name q = n -> a <> n ->
  message c = CREATE_JOB_SUBJECT_PREFIX ++ a
  \/ message c = MARK_JOB_AS_DONE_SUBJECT_PREFIX ++ a ->
  commitBelongsToQueue q c = false.
Proof.
  intros Hn Ha Hc.
  destruct (commitBelongsToQueue q c) eqn:B; [|reflexivity].
  apply earlier_belongs_iff in B.
  unfold createJobCommitSubject, markJobAsDoneCommitSubject in B.
  rewrite Hn in B.
  destruct Hc as [Hc | Hc], B as [B | B]; rewrite Hc in B.
  - apply append_cancel_left in B. contradiction.
  - discriminate B.
  - discriminate B.
  - apply append_cancel_left in B. contradiction.
Qed.

(** X7 -- The earlier queue keeps queues apart.  A commit belongs to a
    queue exactly when its subject is the queue's claim subject or its
    release subject; so a commit written for a queue never belongs to a
    queue of another name. *)
Theorem exact_subjects_isolate_queues :
  (forall q c,
      commitBelongsToQueue q c = true <->
      message c = createJobCommitSubject q
      \/ message c = markJobAsDoneCommitSubject q)
  /\ (forall qa qb c,
         name qa <> name qb ->
         message c = createJobCommitSubject qa
         \/ message c = markJobAsDoneCommitSubject qa ->
         commitBelongsToQueue qb c = false).
Proof.
  split; [exact earlier_belongs_iff|].
  intros qa qb c Hn Hc.
  exact (earlier_foreign_subject (name qb) (name qa) qb c eq_refl Hn Hc).
Qed.

Lemma exact_subjects_isolate_queues_witness :
  commitBelongsToQueue (mkQueue "build" "/repo" Samples.emptyRepo [])
    (claimCommit Samples.nightlyQueue "job-for-nightly" Samples.unsignedOptions)
  = false.
Proof.
  destruct exact_subjects_isolate_queues as (_ & H).
  apply (H (mkQueue "nightly-build" "/repo" Samples.emptyRepo [])).
  - discriminate.
  - left. reflexivity.
Defined.

Lemma earlier_factory_total (q : Queue) (cs : list DefaultLogFields) :
  mapOutcome (messageFactory q) (filter (commitBelongsToQueue q) cs)
  = Return (map (fun c => if isCreateJobCommit q c
                          then CreateJobMessage c else MarkJobAsDoneMessage c)
              (filter (commitBelongsToQueue q) cs)).
Proof.
  induction cs as [|c cs IH]; [reflexivity|].
  simpl. destruct (commitBelongsToQueue q c) eqn:B; [|exact IH].
  simpl. rewrite IH. unfold messageFactory.
  unfold commitBelongsToQueue in B.
  destruct (isCreateJobCommit q c); [reflexivity|].
  destruct (isMarkJobAsDoneCommit q c); [reflexivity | discriminate].
Qed.

(** X8 -- The earlier queue never meets an unrecognized commit.  Every
    commit its filter keeps is turned into a claim or a release, so reading
    the events of any history returns; and creating a queue on a repository
    whose log can be read returns, whatever commits the branch holds. *)
Theorem earlier_queue_reads_any_history :
  (forall q c,
      commitBelongsToQueue q c = true ->
      messageFactory q c = Return (CreateJobMessage c)
      \/ messageFactory q c = Return (MarkJobAsDoneMessage c))
  /\ (forall q cs,
         isReturn (mapOutcome (messageFactory q)
                     (filter (commitBelongsToQueue q) cs)) = true)
  /\ (forall n dir g,
         isRepo g = true -> log_fault g = None ->
         exists q, create n dir g = Return q
                   /\ map commitOf (messages q)
                      = filter (commitBelongsToQueue q) (history g)).
Proof.
  repeat apply conj.
  - intros q c B. unfold messageFactory. unfold commitBelongsToQueue in B.
    destruct (isCreateJobCommit q c); [now left|].
    destruct (isMarkJobAsDoneCommit q c); [now right | discriminate].
  - intros q cs. now rewrite earlier_factory_total.
  - intros n dir g Hr Hl.
    unfold create, loadMessagesFromGit, readMessages, log, checkIsRepo, status.
    cbn [git negb]. rewrite Hr, Hl. cbn [negb].
    destruct (history g) as [|c h] eqn:Hh.
    + cbn [error_message]. rewrite includes_refl.
      eexists. split; reflexivity.
    + rewrite earlier_factory_total.
      eexists. split; [reflexivity|].
      cbn [messages git withMessages]. rewrite map_map.
      set (keep := filter _ (c :: h)).
      change (map (fun c' => commitOf (if isCreateJobCommit (mkQueue n dir g []) c'
                                       then CreateJobMessage c'
                                       else MarkJobAsDoneMessage c')) keep
              = keep).
      rewrite <- (map_id keep) at 2.
      apply map_ext. intros c'. now destruct (isCreateJobCommit _ c').
Qed.

Lemma earlier_queue_reads_any_history_witness :
  exists q, create "deploy" "/repo" Samples.projectRepo = Return q
            /\ messages q = [].
Proof.
  destruct earlier_queue_reads_any_history as (_ & _ & H).
  destruct (H "deploy" "/repo" Samples.projectRepo eq_refl eq_refl) as (q & Hq & Hm).
  exists q. split; [exact Hq|].
  destruct (messages q); [reflexivity|].
  vm_compute in Hq. injection Hq as <-. discriminate Hm.
Defined.

(** X9 -- The earlier queue applies one signing discipline.  Its commit
    options carry exactly one signing directive: the no-sign directive
    when no key is given, the sign-with-key directive otherwise. *)
Theorem earlier_commitOptions_one_directive :
  forall signingKey,
    signingDirectives (commitOptions signingKey)
    = (if String.eqb signingKey ""
       then [("--no-gpg-sign", None)]
       else [("--gpg-sign", Some signingKey)])
    /\ List.length (signingDirectives (commitOptions signingKey)) = 1
    /\ NoDup (map fst (commitOptions signingKey)).
Proof.
  intros k. unfold commitOptions.
  destruct (String.eqb k ""); cbn [negb spreadIf app];
    (split; [reflexivity|]); (split; [reflexivity|]);
    repeat (apply NoDup_cons; [simpl; intuition discriminate|]); apply NoDup_nil.
Qed.

End EarlierQueueFacts.

Section EarlierQueueWrites.

Import EarlierQueue.

Lemma earlier_load_keeps_git (q : Queue) :
  name (snd (loadMessagesFromGit q)) = name q
  /\ git (snd (loadMessagesFromGit q)) = git q.
Proof.
  unfold loadMessagesFromGit.
  destruct (negb (checkIsRepo (git q))); [now split|].
  cbv zeta. destruct (readMessages q) as [ms|e]; [now split|].
  destruct (includes _ _); now split.
Qed.

(** A write of the earlier queue that returns adds its commit to the
    branch and changes nothing else but, possibly, the remote tip. *)
Lemma earlier_commitAndPush_git (q q' : Queue) (lines : list string)
    (k : string) (c : Commit) :
  commitAndPush lines k q = (Return c, q') ->
  name q' = name q /\
  exists rh,
    git q' = withRemoteHistory rh
               (withHistory (newCommit lines (commitOptions k) (git q)
                             :: history (git q)) (git q)).
Proof.
  unfold commitAndPush, commit, bind, gitCommit, unawaited, ret. simpl.
  pose proof (earlier_load_keeps_git
                (withGit (withHistory (newCommit lines (commitOptions k) (git q)
                                       :: history (git q)) (git q)) q))
    as (Kn & Kg).
  destruct (loadMessagesFromGit _) as [[u|e] q2]; [|discriminate].
  simpl in Kn, Kg. intros [= _ <-].
  unfold push, unawaited, gitPush, SimpleGit.push, ret.
  destruct (negb _); simpl.
  - destruct (push_fault (git q2)); simpl.
    + split; [exact Kn|]. exists (remote_history (git q)). now rewrite Kg.
    + split; [exact Kn|]. exists (history (git q2)). now rewrite Kg.
  - split; [exact Kn|]. exists (remote_history (git q)). now rewrite Kg.
Qed.

(** What a queue observes depends on the branch only through the commits
    that belong to it. *)
Lemma earlier_observed_skip (n dir : string) (g : Git) (nc : DefaultLogFields)
    (rh : list DefaultLogFields) :
  commitBelongsToQueue (mkQueue n dir g []) nc = false ->
  observed n dir (withRemoteHistory rh (withHistory (nc :: history g) g))
  = observed n dir g.
Proof.
  intros B.
  unfold observed, create, loadMessagesFromGit, readMessages, log, checkIsRepo,
    status.
  cbn [git isRepo log_fault history current withRemoteHistory withHistory].
  destruct (isRepo g); cbn [negb]; [|reflexivity].
  destruct (log_fault g) as [e|]; [now destruct (includes _ _)|].
  assert (F : forall h,
             filter (commitBelongsToQueue
                       (mkQueue n dir
                          (withRemoteHistory rh (withHistory (nc :: history g) g)) []))
               (nc :: h)
             = filter (commitBelongsToQueue (mkQueue n dir g [])) h).
  { intros h. cbn [filter].
    change (commitBelongsToQueue
              (mkQueue n dir
                 (withRemoteHistory rh (withHistory (nc :: history g) g)) []) nc)
      with (commitBelongsToQueue (mkQueue n dir g []) nc).
    rewrite B. reflexivity. }
  rewrite F.
  destruct (history g) as [|c0 h].
  - cbn [error_message filter mapOutcome]. rewrite includes_refl. reflexivity.
  - change (messageFactory
              (mkQueue n dir
                 (withRemoteHistory rh (withHistory (nc :: c0 :: h) g)) []))
      with (messageFactory (mkQueue n dir g [])).
    destruct (mapOutcome _ _) as [ms|e]; [reflexivity|].
    destruct (includes _ _); reflexivity.
Qed.

(** X10 -- In the earlier queue a write is invisible to other queues.
    After a [dispatch] or a [markJobAsDone] that returned on one queue, a
    queue of any other name created on the repository observes exactly what
    it would have observed before the write: the same messages, or the same
    error. *)
Theorem earlier_writes_invisible_to_other_queues :
  forall qa p k c qa' n dir,
    n <> name qa ->
    (dispatch p k qa = (Return c, qa') \/ markJobAsDone p k qa = (Return c, qa')) ->
    observed n dir (git qa') = observed n dir (git qa).
Proof.
  intros qa p k c qa' n dir Hn H.
  assert (W : exists lines,
             commitAndPush lines k qa = (Return c, qa')
             /\ (List.hd "" lines = CREATE_JOB_SUBJECT_PREFIX ++ name qa
                 \/ List.hd "" lines = MARK_JOB_AS_DONE_SUBJECT_PREFIX ++ name qa)).
  { destruct H as [H | H].
    - unfold dispatch, bind, guardThatThereIsNoPendingJobs, throw, ret in H.
      destruct (negb _); [discriminate|].
      eexists. split; [exact H|]. now left.
    - unfold markJobAsDone, bind, guardThatThereIsAPendingJob, throw, ret in H.
      destruct (isEmpty _); [discriminate|].
      eexists. split; [exact H|]. now right. }
  destruct W as (lines & W & Hs).
  apply earlier_commitAndPush_git in W as (_ & rh & ->).
  apply earlier_observed_skip.
  apply (earlier_foreign_subject n (name qa)); [reflexivity | auto | exact Hs].
Qed.

Lemma earlier_writes_invisible_to_other_queues_witness :
  observed "build" "/repo"
    (git (snd (dispatch "job-for-nightly" ""
                 (mkQueue "nightly-build" "/repo" Samples.emptyRepo []))))
  = Return [].
Proof.
  rewrite (earlier_writes_invisible_to_other_queues
             (mkQueue "nightly-build" "/repo" Samples.emptyRepo [])
             "job-for-nightly" "" (mkCommit "1a5f")
             (snd (dispatch "job-for-nightly" ""
                     (mkQueue "nightly-build" "/repo" Samples.emptyRepo [])))
             "build" "/repo").
  - reflexivity.
  - discriminate.
  - left. vm_compute. reflexivity.
Defined.

End EarlierQueueWrites.

(* ------------------------------------------------------------------ *)
(** ** Properties of the driving shell *)

Lemma create_keeps_git (n dir : string) (g : Git) (q : Queue) :
  create n dir g = Return q -> name q = n /\ git q = g.
Proof.
  unfold create.
  pose proof (load_keeps_repository (mkQueue n dir g [])) as (Kn & _ & Kg).
  destruct (loadMessagesFromGit _) as [[u|e] q']; [|discriminate].
  now intros [= <-].
Qed.

(** A queue whose snapshot is the readable log is what [create] builds
    anew on its repository. *)
Lemma recreate (q : Queue) (dir : string) :
  synced q -> history (git q) <> [] ->
  create (name q) dir (git q)
  = Return (mkQueue (name q) dir (git q) (storedMessages q)).
Proof.
  intros (Hr & Hl & He) Hh. apply create_reads; assumption.
Qed.

Lemma observed_createJob_ok (a : CommitAnswers) (q : Queue) (p : string)
    (o : CommitOptions) :
  commit_fault a = None ->
  storedSubject a (CREATE_JOB_SUBJECT_PREFIX ++ name q)
  = CREATE_JOB_SUBJECT_PREFIX ++ name q ->
  synced q -> isEmpty (getNextJob q) = true ->
  Observed.createJob a p o q
  = (Return (mkCommit (reportedId a (hash (Observed.claimCommit a q p o)))),
     Observed.settled q (Observed.claimCommit a q p o)
       (StoredCreateJobMessage (Observed.claimCommit a q p o) :: storedMessages q))
  /\ synced (Observed.settled q (Observed.claimCommit a q p o)
               (StoredCreateJobMessage (Observed.claimCommit a q p o)
                  :: storedMessages q)).
Proof.
  intros Hc Hs (Hr & Hl & He) Hg.
  destruct (observed_claim_recognized a q p o Hs) as (Hf & Hb). split.
  - rewrite observed_createJob_unfold, Hg. simpl negb. cbv iota.
    exact (observed_commitAndPush_ok a q _ o _ Hf Hb _ Hc Hr Hl He).
  - exact (observed_settled_synced a q _ o _ Hf Hb _ Hr Hl He).
Qed.

Lemma observed_markJobAsDone_ok (a : CommitAnswers) (q : Queue) (p : string)
    (o : CommitOptions) :
  commit_fault a = None ->
  storedSubject a (MARK_JOB_AS_DONE_SUBJECT_PREFIX ++ name q)
  = MARK_JOB_AS_DONE_SUBJECT_PREFIX ++ name q ->
  synced q -> isEmpty (getNextJob q) = false ->
  Observed.markJobAsDone a p o q
  = (Return (mkCommit (reportedId a (hash (Observed.releaseCommit a q p o)))),
     Observed.settled q (Observed.releaseCommit a q p o)
       (StoredMarkJobAsDoneMessage (Observed.releaseCommit a q p o)
          :: storedMessages q))
  /\ synced (Observed.settled q (Observed.releaseCommit a q p o)
               (StoredMarkJobAsDoneMessage (Observed.releaseCommit a q p o)
                  :: storedMessages q)).
Proof.
  intros Hc Hs (Hr & Hl & He) Hg.
  destruct (observed_release_recognized a q p o Hs) as (Hf & Hb). split.
  - rewrite observed_markJobAsDone_unfold, Hg.
    exact (observed_commitAndPush_ok a q _ o _ Hf Hb _ Hc Hr Hl He).
  - exact (observed_settled_synced a q _ o _ Hf Hb _ Hr Hl He).
Qed.

(** X11 -- A failed run sets no output.  Whenever the catch block of a
    run marks it failed, the run has set no output: marking the run failed
    leaves what was output before as it is, and every step that can throw
    comes before the first output of its action. *)
Theorem failed_run_sets_no_output :
  forall env inputs,
    Main.failed (Main.run env inputs) = None
    \/ Main.outputs (Main.run env inputs) = [].
Proof.
  intros env inputs.
  unfold Main.run, Main.tryCatch, Main.runBody, Main.andThen, Main.awaited,
    Main.onQueue, Main.setOutput, Main.setFailed, Main.logError, Main.finish,
    Main.started.
  cbv zeta.
  destruct (create _ _ _) as [q|e]; [|now right].
  destruct (Main.getCommitOptions env inputs) as [o|e]; [|now right].
  destruct (String.eqb _ Main.ACTION_CREATE_JOB).
  { destruct (Observed.createJob _ _ _ _) as [[c|e] q']; [now left | now right]. }
  destruct (String.eqb _ Main.ACTION_NEXT_JOB).
  { destruct (negb _); now left. }
  destruct (String.eqb _ Main.ACTION_MARK_JOB_AS_DONE); [|now left].
  destruct (Observed.markJobAsDone _ _ _ _) as [[c|e] q']; [now left | now right].
Qed.

(** X12 -- Only the two writing actions write.  A run whose action is
    neither create-job nor mark-job-as-done, the next-job action and every
    unknown action among them, leaves the repository exactly as it opened
    it. *)
Theorem reading_run_keeps_repository :
  forall env inputs,
    Main.action inputs <> Main.ACTION_CREATE_JOB ->
    Main.action inputs <> Main.ACTION_MARK_JOB_AS_DONE ->
    Main.repository (Main.run env inputs) = Main.repositoryOf env inputs.
Proof.
  intros env inputs Hc Hm.
  apply String.eqb_neq in Hc. apply String.eqb_neq in Hm.
  unfold Main.run, Main.tryCatch, Main.runBody, Main.andThen, Main.awaited,
    Main.onQueue, Main.setOutput, Main.setFailed, Main.logError, Main.finish,
    Main.started.
  cbv zeta.
  destruct (create _ _ _) as [q|e]; [|reflexivity].
  destruct (Main.getCommitOptions env inputs) as [o|e]; [|reflexivity].
  rewrite Hc, Hm.
  destruct (String.eqb _ Main.ACTION_NEXT_JOB); [|reflexivity].
  now destruct (negb _).
Qed.

Lemma reading_run_keeps_repository_witness :
  Main.repository (Main.run ShellSamples.sampleEnvironment ShellSamples.sampleInputs)
  = Samples.emptyRepo.
Proof.
  apply (reading_run_keeps_repository ShellSamples.sampleEnvironment
           ShellSamples.sampleInputs); discriminate.
Defined.

(** X13 -- An unknown action is not a failure.  When the action is none
    of the three selectors and the queue and the commit options could be
    built, the run is not marked failed: it sets no output and only logs
    the invalid-action error. *)
Theorem unknown_action_is_not_a_failure :
  forall env inputs q o,
    Main.action inputs <> Main.ACTION_CREATE_JOB ->
    Main.action inputs <> Main.ACTION_NEXT_JOB ->
    Main.action inputs <> Main.ACTION_MARK_JOB_AS_DONE ->
    create (Main.queueName inputs) (Main.repoDirOf env inputs)
      (Main.repositoryOf env inputs) = Return q ->
    Main.getCommitOptions env inputs = Return o ->
    Main.failed (Main.run env inputs) = None
    /\ Main.outputs (Main.run env inputs) = []
    /\ Main.errors (Main.run env inputs)
       = ["Invalid action. Actions can only be: " ++ Main.actionOptionsSource env].
Proof.
  intros env inputs q o Hc Hn Hm C O.
  apply String.eqb_neq in Hc. apply String.eqb_neq in Hn.
  apply String.eqb_neq in Hm.
  unfold Main.repositoryOf, Main.repoDirOf in C.
  unfold Main.run, Main.tryCatch, Main.runBody, Main.andThen, Main.awaited,
    Main.logError, Main.started.
  cbv zeta. rewrite C, O, Hc, Hn, Hm. now repeat split.
Qed.

Lemma unknown_action_is_not_a_failure_witness :
  Main.failed (Main.run ShellSamples.sampleEnvironment
                 (Main.withAction "get-job" ShellSamples.sampleInputs)) = None.
Proof.
  apply (unknown_action_is_not_a_failure ShellSamples.sampleEnvironment
           (Main.withAction "get-job" ShellSamples.sampleInputs)
           Samples.freshQueue Samples.unsignedOptions);
    try discriminate; reflexivity.
Defined.

Section ShellRuns.

Variables (env : Main.Environment) (i : Main.Inputs) (o : CommitOptions).

Hypothesis Hoptions : Main.getCommitOptions env i = Return o.

Lemma run_create_job (q q' : Queue) (c : Commit) :
  Main.action i = Main.ACTION_CREATE_JOB ->
  create (Main.queueName i) (Main.repoDirOf env i) (Main.repositoryOf env i)
  = Return q ->
  Observed.createJob (Main.commitAnswers env) (Main.jobPayload i) o q
  = (Return c, q') ->
  Main.run env i
  = {| Main.outputs := [("job_created", Main.BoolValue true);
                        ("job_commit", Main.StringValue (commit_hash c))];
       Main.failed := None; Main.errors := [];
       Main.repository := git q' |}.
Proof.
  intros Ha C W. unfold Main.repositoryOf, Main.repoDirOf in C.
  unfold Main.run, Main.tryCatch, Main.runBody, Main.andThen, Main.awaited,
    Main.onQueue, Main.setOutput, Main.started.
  cbv zeta. now rewrite C, Hoptions, Ha, W.
Qed.

Lemma run_next_job (q : Queue) :
  Main.action i = Main.ACTION_NEXT_JOB ->
  create (Main.queueName i) (Main.repoDirOf env i) (Main.repositoryOf env i)
  = Return q ->
  Main.run env i
  = {| Main.outputs :=
         ("job_found", Main.BoolValue (negb (isEmpty (getNextJob q))))
         :: (if negb (isEmpty (getNextJob q))
             then [("job_commit", Main.StringValue (commitHash (getNextJob q)));
                   ("job_payload", Main.StringValue (payload (getNextJob q)))]
             else []);
       Main.failed := None; Main.errors := [];
       Main.repository := Main.repositoryOf env i |}.
Proof.
  intros Ha C. unfold Main.repositoryOf, Main.repoDirOf in C.
  unfold Main.run, Main.tryCatch, Main.runBody, Main.andThen, Main.awaited,
    Main.setOutput, Main.finish, Main.started, Main.repositoryOf, Main.repoDirOf.
  cbv zeta. rewrite C, Hoptions, Ha.
  now destruct (negb (isEmpty (getNextJob q))).
Qed.

Lemma run_mark_job_as_done (q q' : Queue) (c : Commit) :
  Main.action i = Main.ACTION_MARK_JOB_AS_DONE ->
  create (Main.queueName i) (Main.repoDirOf env i) (Main.repositoryOf env i)
  = Return q ->
  Observed.markJobAsDone (Main.commitAnswers env) (Main.jobPayload i) o q
  = (Return c, q') ->
  Main.run env i
  = {| Main.outputs := [("job_created", Main.BoolValue true);
                        ("job_commit", Main.StringValue (commit_hash c))];
       Main.failed := None; Main.errors := [];
       Main.repository := git q' |}.
Proof.
  intros Ha C W. unfold Main.repositoryOf, Main.repoDirOf in C.
  unfold Main.run, Main.tryCatch, Main.runBody, Main.andThen, Main.awaited,
    Main.onQueue, Main.setOutput, Main.started.
  cbv zeta. now rewrite C, Hoptions, Ha, W.
Qed.

(** The queue a run builds on the repository a synced queue left. *)
Lemma run_recreates (q : Queue) :
  synced q -> history (git q) <> [] ->
  name q = Main.queueName i -> Main.repositoryOf env i = git q ->
  create (Main.queueName i) (Main.repoDirOf env i) (Main.repositoryOf env i)
  = Return (mkQueue (name q) (Main.repoDirOf env i) (git q) (storedMessages q)).
Proof.
  intros S Hh Hn Hg. rewrite Hg, <- Hn. now apply recreate.
Qed.

End ShellRuns.

(** X14 -- A job's life across runs.  On a repository without commits,
    with options that can be built, a collaborator that accepts the
    commits and stores the two subjects of the queue as they were sent:
    a create-job run reports the identifier the commit call answered; a
    next-job run on the repository it left finds that commit under the
    identifier the log gives it, with the payload as the repository stored
    it, trimmed, and leaves the repository alone; a mark-job-as-done run
    then reports a second commit; and a next-job run on what that left
    finds nothing.  Every run builds its queue anew. *)
Theorem job_lifecycle_across_runs :
  forall env inputs o,
    isRepo (Main.repositoryOf env inputs) = true ->
    log_fault (Main.repositoryOf env inputs) = None ->
    history (Main.repositoryOf env inputs) = [] ->
    Main.getCommitOptions env inputs = Return o ->
    commit_fault (Main.commitAnswers env) = None ->
    Observed.keepsSubjects (Main.commitAnswers env) (Main.queueName inputs) ->
    exists h1 h2 g1 g2,
      Main.run env (Main.withAction Main.ACTION_CREATE_JOB inputs)
      = {| Main.outputs :=
             [("job_created", Main.BoolValue true);
              ("job_commit",
               Main.StringValue (reportedId (Main.commitAnswers env) h1))];
           Main.failed := None; Main.errors := []; Main.repository := g1 |}
      /\ Main.run (Main.reopen g1 env) (Main.withAction Main.ACTION_NEXT_JOB inputs)
         = {| Main.outputs :=
                [("job_found", Main.BoolValue true);
                 ("job_commit", Main.StringValue h1);
                 ("job_payload",
                  Main.StringValue
                    (trim (storedBody (Main.commitAnswers env)
                             (Main.jobPayload inputs))))];
              Main.failed := None; Main.errors := []; Main.repository := g1 |}
      /\ Main.run (Main.reopen g1 env)
           (Main.withAction Main.ACTION_MARK_JOB_AS_DONE inputs)
         = {| Main.outputs :=
                [("job_created", Main.BoolValue true);
                 ("job_commit",
                  Main.StringValue (reportedId (Main.commitAnswers env) h2))];
              Main.failed := None; Main.errors := []; Main.repository := g2 |}
      /\ Main.run (Main.reopen g2 env) (Main.withAction Main.ACTION_NEXT_JOB inputs)
         = {| Main.outputs := [("job_found", Main.BoolValue false)];
              Main.failed := None; Main.errors := []; Main.repository := g2 |}.
Proof.
  intros env inputs o Hr Hl Hh Ho Hc (Kc & Km).
  set (a := Main.commitAnswers env) in *.
  set (n := Main.queueName inputs) in *.
  set (dir := Main.repoDirOf env inputs).
  set (p := Main.jobPayload inputs).
  set (q0 := mkQueue n dir (Main.repositoryOf env inputs) []).
  assert (C0 : create n dir (Main.repositoryOf env inputs) = Return q0)
    by now apply create_bootstrap.
  assert (S0 : synced q0).
  { unfold synced, eventsOf. simpl. repeat split; try assumption. now rewrite Hh. }
  destruct (observed_createJob_ok a q0 p o Hc Kc S0 eq_refl) as (E1 & S1).
  set (nc1 := Observed.claimCommit a q0 p o) in *.
  destruct (observed_settled_facts q0 nc1
              (StoredCreateJobMessage nc1 :: storedMessages q0))
    as (Hn1 & Hs1 & _ & _ & Hh1 & _).
  set (q1 := Observed.settled q0 nc1
               (StoredCreateJobMessage nc1 :: storedMessages q0)) in *.
  set (q1' := mkQueue (name q1) dir (git q1) (storedMessages q1)).
  assert (N1 : getNextJob q1' = StoredCreateJobMessage nc1)
    by exact (getNextJob_cons q1' _ _ Hs1).
  assert (C1 : forall act,
             create (Main.queueName (Main.withAction act inputs))
               (Main.repoDirOf (Main.reopen (git q1) env) (Main.withAction act inputs))
               (Main.repositoryOf (Main.reopen (git q1) env)
                  (Main.withAction act inputs))
             = Return q1').
  { intros act.
    apply (run_recreates (Main.reopen (git q1) env) (Main.withAction act inputs) q1);
      [exact S1 | rewrite Hh1; discriminate | exact Hn1 | reflexivity]. }
  assert (G1 : isEmpty (getNextJob q1') = false) by now rewrite N1.
  assert (Km' : storedSubject a (MARK_JOB_AS_DONE_SUBJECT_PREFIX ++ name q1')
                = MARK_JOB_AS_DONE_SUBJECT_PREFIX ++ name q1')
    by (cbn [name q1']; rewrite Hn1; exact Km).
  destruct (observed_markJobAsDone_ok a q1' p o Hc Km' S1 G1) as (E2 & S2).
  set (nc2 := Observed.releaseCommit a q1' p o) in *.
  destruct (observed_settled_facts q1' nc2
              (StoredMarkJobAsDoneMessage nc2 :: storedMessages q1'))
    as (Hn2 & Hs2 & _ & _ & Hh2 & _).
  set (q2 := Observed.settled q1' nc2
               (StoredMarkJobAsDoneMessage nc2 :: storedMessages q1')) in *.
  set (q2' := mkQueue (name q2) dir (git q2) (storedMessages q2)).
  assert (N2 : getNextJob q2' = nullMessage)
    by exact (getNextJob_cons q2' _ _ Hs2).
  assert (C2 : create (Main.queueName (Main.withAction Main.ACTION_NEXT_JOB inputs))
                 (Main.repoDirOf (Main.reopen (git q2) env)
                    (Main.withAction Main.ACTION_NEXT_JOB inputs))
                 (Main.repositoryOf (Main.reopen (git q2) env)
                    (Main.withAction Main.ACTION_NEXT_JOB inputs))
               = Return q2').
  { apply (run_recreates (Main.reopen (git q2) env)
             (Main.withAction Main.ACTION_NEXT_JOB inputs) q2);
      [exact S2 | rewrite Hh2; discriminate | | reflexivity].
    rewrite Hn2. exact Hn1. }
  exists (hash nc1), (hash nc2), (git q1), (git q2).
  repeat apply conj.
  - exact (run_create_job env (Main.withAction Main.ACTION_CREATE_JOB inputs) o Ho
             q0 q1 _ eq_refl C0 E1).
  - rewrite (run_next_job (Main.reopen (git q1) env)
               (Main.withAction Main.ACTION_NEXT_JOB inputs) o Ho q1' eq_refl
               (C1 _)).
    rewrite N1. reflexivity.
  - exact (run_mark_job_as_done (Main.reopen (git q1) env)
             (Main.withAction Main.ACTION_MARK_JOB_AS_DONE inputs) o Ho
             q1' q2 _ eq_refl (C1 _) E2).
  - rewrite (run_next_job (Main.reopen (git q2) env)
               (Main.withAction Main.ACTION_NEXT_JOB inputs) o Ho q2' eq_refl C2).
    rewrite N2. reflexivity.
Qed.

Lemma job_lifecycle_across_runs_witness :
  exists g1 g2,
    Main.run ShellSamples.gitEnvironment
      (Main.withAction Main.ACTION_CREATE_JOB ShellSamples.gitInputs)
    = {| Main.outputs := [("job_created", Main.BoolValue true);
                          ("job_commit", Main.StringValue "38881be")];
         Main.failed := None; Main.errors := []; Main.repository := g1 |}
    /\ Main.outputs
         (Main.run (Main.reopen g1 ShellSamples.gitEnvironment)
            (Main.withAction Main.ACTION_NEXT_JOB ShellSamples.gitInputs))
       = [("job_found", Main.BoolValue true);
          ("job_commit",
           Main.StringValue "38881be2c7a94d0f5e61b3a8c9d7e4f2a1b0c6d5");
          ("job_payload",
           Main.StringValue
             ("first line" ++ String GitAnswers.lineFeed "second line"))]
    /\ Main.repository
         (Main.run (Main.reopen g1 ShellSamples.gitEnvironment)
            (Main.withAction Main.ACTION_MARK_JOB_AS_DONE ShellSamples.gitInputs))
       = g2
    /\ Main.outputs
         (Main.run (Main.reopen g2 ShellSamples.gitEnvironment)
            (Main.withAction Main.ACTION_NEXT_JOB ShellSamples.gitInputs))
       = [("job_found", Main.BoolValue false)].
Proof.
  destruct (job_lifecycle_across_runs ShellSamples.gitEnvironment
              ShellSamples.gitInputs Samples.unsignedOptions
              eq_refl eq_refl eq_refl eq_refl eq_refl (conj eq_refl eq_refl))
    as (h1 & h2 & g1 & g2 & R1 & R2 & R3 & R4).
  assert (E : Main.outputs
                (Main.run ShellSamples.gitEnvironment
                   (Main.withAction Main.ACTION_CREATE_JOB ShellSamples.gitInputs))
              = [("job_created", Main.BoolValue true);
                 ("job_commit", Main.StringValue "38881be")])
    by (vm_compute; reflexivity).
  assert (F : Main.outputs
                (Main.run
                   (Main.reopen
                      (Main.repository
                         (Main.run ShellSamples.gitEnvironment
                            (Main.withAction Main.ACTION_CREATE_JOB
                               ShellSamples.gitInputs)))
                      ShellSamples.gitEnvironment)
                   (Main.withAction Main.ACTION_NEXT_JOB ShellSamples.gitInputs))
              = [("job_found", Main.BoolValue true);
                 ("job_commit",
                  Main.StringValue "38881be2c7a94d0f5e61b3a8c9d7e4f2a1b0c6d5");
                 ("job_payload",
                  Main.StringValue
                    ("first line" ++ String GitAnswers.lineFeed "second line"))])
    by (vm_compute; reflexivity).
  exists g1, g2.
  rewrite R1 in E, F. cbn [Main.outputs Main.repository] in E, F.
  rewrite R1, R3, R4. cbn [Main.repository Main.outputs].
  repeat apply conj; try reflexivity.
  - rewrite <- E. reflexivity.
  - exact F.
Defined.

(* ------------------------------------------------------------------ *)
(** ** Properties of the agent readers *)

Section GpgFacts.

Import Gpg.

Lemma startsWith_split (t p : string) :
  startsWith t p = true -> exists r, t = p ++ r.
Proof.
  revert t; induction p as [|c p IH]; intros t H.
  - now exists t.
  - destruct t as [|d t]; [discriminate|]. simpl in H.
    apply andb_true_iff in H as [Hc Ht]. apply Ascii.eqb_eq in Hc; subst d.
    destruct (IH t Ht) as (r & ->). now exists r.
Qed.

Lemma append_assoc_string (a b c : string) : (a ++ b) ++ c = a ++ b ++ c.
Proof. induction a as [|x a IH]; simpl; [reflexivity | now rewrite IH]. Qed.

Lemma removeCarriageReturns_append (a b : string) :
  removeCarriageReturns (a ++ b)
  = removeCarriageReturns a ++ removeCarriageReturns b.
Proof.
  induction a as [|c a IH]; simpl; [reflexivity|].
  destruct (Ascii.eqb c CR); simpl; now rewrite IH.
Qed.

Lemma removeCarriageReturns_whiteSpace (l : string) :
  allWhiteSpace l = true -> allWhiteSpace (removeCarriageReturns l) = true.
Proof.
  induction l as [|c l IH]; simpl; [reflexivity|].
  intros H. apply andb_true_iff in H as [Hc Hl].
  destruct (Ascii.eqb c CR); simpl; [auto|]. now rewrite Hc, IH.
Qed.

Lemma trimStart_skip (l s : string) (c : ascii) :
  allWhiteSpace l = true -> isWhiteSpace c = false ->
  trimStart (l ++ String c s) = String c s.
Proof.
  intros Hl Hc. induction l as [|d l IH]; simpl.
  - now rewrite Hc.
  - simpl in Hl. apply andb_true_iff in Hl as [Hd Hl]. rewrite Hd. auto.
Qed.

Lemma trimEnd_cons (c : ascii) (s : string) :
  isWhiteSpace c = false -> trimEnd (String c s) = String c (trimEnd s).
Proof.
  intros Hc. simpl. destruct (trimEnd s); [now rewrite Hc | reflexivity].
Qed.

Lemma splitLines_cons (c : ascii) (s : string) :
  Ascii.eqb c LF = false ->
  exists l ls, splitLines s = l :: ls /\ splitLines (String c s) = String c l :: ls.
Proof.
  intros Hc. simpl. rewrite Hc.
  destruct (splitLines s) as [|l ls] eqn:E.
  - destruct s; simpl in E; [discriminate|].
    destruct (Ascii.eqb a LF); [discriminate|].
    destruct (splitLines s); discriminate.
  - now exists l, ls.
Qed.

(** A text that starts with ERR has a first line that starts with ERR. *)
Lemma splitLines_err (z : string) :
  exists l ls, splitLines ("ERR" ++ z) = ("ERR" ++ l) :: ls.
Proof.
  destruct (splitLines_cons "R" z eq_refl) as (l3 & ls3 & _ & E3).
  destruct (splitLines_cons "R" (String "R" z) eq_refl) as (l2 & ls2 & E2' & E2).
  destruct (splitLines_cons "E" (String "R" (String "R" z)) eq_refl)
    as (l1 & ls1 & E1' & E1).
  rewrite E3 in E2'. injection E2' as <- <-.
  rewrite E2 in E1'. injection E1' as <- <-.
  exists l3, ls3. exact E1.
Qed.

Lemma trim_err (s : string) :
  startsWith (trim s) "ERR" = true ->
  exists z, trim (removeCarriageReturns s) = "ERR" ++ z.
Proof.
  intros H. apply startsWith_split in H as (r & Hr).
  destruct (trimStart_decompose s) as (lead & Hs & Hlead & _).
  destruct (trimEnd_decompose (trimStart s)) as (tail & Ht & _ & _).
  fold (trim s) in Ht. rewrite Hr in Ht. rewrite Ht in Hs.
  rewrite Hs, removeCarriageReturns_append.
  change (removeCarriageReturns (("ERR" ++ r) ++ tail))
    with (String "E" (String "R" (String "R" (removeCarriageReturns (r ++ tail))))).
  unfold trim.
  rewrite (trimStart_skip _ _ "E"
             (removeCarriageReturns_whiteSpace _ Hlead) eq_refl).
  rewrite !trimEnd_cons by reflexivity.
  now eexists.
Qed.

Lemma outputLines_err (res : ExecOutput) :
  startsWith (trim (stdout res)) "ERR" = true ->
  exists l ls, outputLines res = ("ERR" ++ l) :: ls.
Proof.
  intros H. unfold outputLines.
  destruct (trim_err _ H) as (z & ->). apply splitLines_err.
Qed.

(** X15 -- The agent's answer is never an error line.  When the reader of
    the agent's output returns, it returns the trimmed output, no line of
    the output starts with ERR, and in particular the value returned does
    not start with ERR; a call that failed with error text is never
    returned as a value. *)
Theorem agent_answer_is_never_an_error :
  forall res v,
    gpgConnectAgentThen res = Return v ->
    v = trim (stdout res)
    /\ startsWith v "ERR" = false
    /\ forallb (fun line => negb (startsWith line "ERR")) (outputLines res) = true
    /\ failedWithMessage res = false.
Proof.
  intros res v. unfold gpgConnectAgentThen.
  destruct (failedWithMessage res); [discriminate|].
  destruct (find _ (outputLines res)) as [line|] eqn:F; [discriminate|].
  intros [= <-].
  assert (A : forallb (fun line => negb (startsWith line "ERR")) (outputLines res)
              = true).
  { apply forallb_forall. intros l Hin.
    now rewrite (find_none _ _ F l Hin). }
  repeat split; try assumption.
  destruct (startsWith (trim (stdout res)) "ERR") eqn:E; [|reflexivity].
  destruct (outputLines_err res E) as (l & ls & Hl).
  rewrite Hl in F. cbn [find] in F.
  rewrite (startsWith_append "ERR" l) in F. discriminate F.
Qed.

Lemma agent_answer_is_never_an_error_witness :
  startsWith (trim "  S KEYINFO 1234 D - - - P - - -") "ERR" = false.
Proof.
  apply (agent_answer_is_never_an_error
           (mkExecOutput 0 "  S KEYINFO 1234 D - - - P - - -" "")
           (trim "  S KEYINFO 1234 D - - - P - - -")).
  vm_compute. reflexivity.
Defined.

End GpgFacts.

Section GpgKeys.

Import Gpg.

Lemma removeGrpAndColons_cons (c : ascii) (s : string) :
  removeGrpAndColons (String c s)
  = if Ascii.eqb c ":" then removeGrpAndColons s
    else match s with
         | String c1 (String c2 s'') =>
             if Ascii.eqb c "g" && Ascii.eqb c1 "r" && Ascii.eqb c2 "p"
             then removeGrpAndColons s''
             else String c (removeGrpAndColons s)
         | _ => String c (removeGrpAndColons s)
         end.
Proof. reflexivity. Qed.

Lemma removeGrpAndColons_no_colon_upto (n : nat) :
  forall s, String.length s <= n -> occurs ":" (removeGrpAndColons s) = false.
Proof.
  induction n as [|n IH]; intros s Hlen.
  - destruct s; [reflexivity | simpl in Hlen; lia].
  - destruct s as [|c s]; [reflexivity|].
    simpl in Hlen. rewrite removeGrpAndColons_cons.
    destruct (Ascii.eqb c ":") eqn:Ec; [apply IH; lia|].
    assert (K : occurs ":" (String c (removeGrpAndColons s)) = false).
    { cbn [occurs]. rewrite Ec. apply IH. lia. }
    destruct s as [|c1 [|c2 s'']]; try exact K.
    destruct (_ && _); [|exact K].
    apply IH. simpl in Hlen. lia.
Qed.

Lemma removeGrpAndColons_no_colon (s : string) :
  occurs ":" (removeGrpAndColons s) = false.
Proof. exact (removeGrpAndColons_no_colon_upto (String.length s) s (le_n _)). Qed.

Lemma trim_occurs (c : ascii) (s : string) :
  occurs c s = false -> occurs c (trim s) = false.
Proof.
  intros H. destruct (trim_decompose s) as (l & r & Hs & _).
  rewrite Hs, !occurs_append in H.
  apply orb_false_iff in H as [_ H]. now apply orb_false_iff in H as [H _].
Qed.

Lemma upperHex_occurs (c : ascii) (k : string) :
  isUpperHexDigit c = false -> isUpperHex k = true -> occurs c k = false.
Proof.
  intros Hc. induction k as [|d k IH]; simpl; [reflexivity|].
  intros H. apply andb_true_iff in H as [Hd Hk]. rewrite (IH Hk), orb_false_r.
  destruct (Ascii.eqb d c) eqn:E; [|reflexivity].
  apply Ascii.eqb_eq in E; subst d. congruence.
Qed.

Lemma removeGrpAndColons_upperHex (k : string) :
  isUpperHex k = true -> removeGrpAndColons (k ++ ":") = k.
Proof.
  induction k as [|c k IH]; [reflexivity|].
  intros H. simpl in H. apply andb_true_iff in H as [Hc Hk].
  change (String c k ++ ":") with (String c (k ++ ":")).
  rewrite removeGrpAndColons_cons.
  assert (Ec : Ascii.eqb c ":" = false).
  { destruct (Ascii.eqb c ":") eqn:E; [|reflexivity].
    apply Ascii.eqb_eq in E; subst c. discriminate Hc. }
  assert (Eg : Ascii.eqb c "g" = false).
  { destruct (Ascii.eqb c "g") eqn:E; [|reflexivity].
    apply Ascii.eqb_eq in E; subst c. discriminate Hc. }
  rewrite Ec, Eg, (IH Hk). cbn [andb].
  now destruct (k ++ ":") as [|c1 [|c2 s'']].
Qed.

Lemma removeCarriageReturns_id (s : string) :
  occurs CR s = false -> removeCarriageReturns s = s.
Proof.
  induction s as [|c s IH]; simpl; [reflexivity|].
  intros H. apply orb_false_iff in H as [Hc Hs]. now rewrite Hc, IH.
Qed.

Lemma splitLines_single (s : string) :
  occurs LF s = false -> splitLines s = [s].
Proof.
  induction s as [|c s IH]; simpl; [reflexivity|].
  intros H. apply orb_false_iff in H as [Hc Hs]. now rewrite Hc, IH.
Qed.

Lemma trimEnd_id (s : string) :
  edgeIsWhiteSpace (last s) = false -> trimEnd s = s.
Proof.
  induction s as [|c s IH]; [reflexivity|].
  destruct s as [|d s'].
  - simpl. intros H. now rewrite H.
  - intros H. change (last (String c (String d s'))) with (last (String d s')) in H.
    change (trimEnd (String c (String d s')))
      with (match trimEnd (String d s') with
            | EmptyString => if isWhiteSpace c then EmptyString else String c EmptyString
            | t => String c t
            end).
    now rewrite (IH H).
Qed.

Lemma trim_id (s : string) :
  edgeIsWhiteSpace (first s) = false -> edgeIsWhiteSpace (last s) = false ->
  trim s = s.
Proof.
  intros Hf Hl. unfold trim.
  assert (E : trimStart s = s) by (destruct s; simpl in *; [|rewrite Hf]; reflexivity).
  rewrite E. now apply trimEnd_id.
Qed.

Lemma upperHex_edges (k : string) :
  isUpperHex k = true ->
  edgeIsWhiteSpace (first k) = false /\ edgeIsWhiteSpace (last k) = false.
Proof.
  intros H. split.
  - destruct k as [|c k]; [reflexivity|]. simpl in *.
    apply andb_true_iff in H as [Hc _].
    destruct (isWhiteSpace c) eqn:W; [|reflexivity].
    revert Hc W. unfold isUpperHexDigit, isWhiteSpace.
    destruct (nat_of_ascii c) as [|n] eqn:N; [discriminate|].
    intros Hc W. apply orb_true_iff in W as [W | W];
      [apply orb_true_iff in W as [W | W]|];
      repeat match goal with
        | H : (_ && _)%bool = true |- _ => apply andb_true_iff in H as [? ?]
        | H : (_ || _)%bool = true |- _ => apply orb_true_iff in H as [? | ?]
        | H : (_ <=? _)%nat = true |- _ => apply Nat.leb_le in H
        | H : (_ =? _)%nat = true |- _ => apply Nat.eqb_eq in H
        end; lia.
  - induction k as [|c k IH]; [reflexivity|].
    simpl in H. apply andb_true_iff in H as [Hc Hk].
    destruct k as [|d k'].
    + simpl. destruct (isWhiteSpace c) eqn:W; [|reflexivity].
      revert Hc W. unfold isUpperHexDigit, isWhiteSpace.
      intros Hc W. apply orb_true_iff in W as [W | W];
        [apply orb_true_iff in W as [W | W]|];
        repeat match goal with
          | H : (_ && _)%bool = true |- _ => apply andb_true_iff in H as [? ?]
          | H : (_ || _)%bool = true |- _ => apply orb_true_iff in H as [? | ?]
          | H : (_ <=? _)%nat = true |- _ => apply Nat.leb_le in H
          | H : (_ =? _)%nat = true |- _ => apply Nat.eqb_eq in H
          end; lia.
    + exact (IH Hk).
Qed.

Lemma keygripRecord_line (k : string) :
  isUpperHex k = true ->
  outputLines (mkExecOutput 0 (keygripRecord k) "") = [keygripRecord k].
Proof.
  intros H. unfold outputLines, keygripRecord. cbn [stdout].
  assert (Hcr : occurs CR ("grp:::::::::" ++ k ++ ":") = false).
  { rewrite !occurs_append, (upperHex_occurs CR k eq_refl H). reflexivity. }
  assert (Hlf : occurs LF ("grp:::::::::" ++ k ++ ":") = false).
  { rewrite !occurs_append, (upperHex_occurs LF k eq_refl H). reflexivity. }
  rewrite (removeCarriageReturns_id _ Hcr).
  rewrite trim_id.
  - now apply splitLines_single.
  - reflexivity.
  - now rewrite <- append_assoc_string, last_append_cons.
Qed.

(** X16 -- Keygrips come out of gpg's colon records.  No keygrip the
    reader returns contains a colon; and from an output that is the colon
    record of a keygrip written in upper-case hexadecimal, the reader
    returns that keygrip and nothing else. *)
Theorem keygrips_are_read_from_colon_records :
  (forall res k, In k (getKeygripsThen res) -> occurs ":" k = false)
  /\ (forall k,
         isUpperHex k = true ->
         getKeygripsThen (mkExecOutput 0 (keygripRecord k) "") = [k]).
Proof.
  split.
  - intros res k Hin. unfold getKeygripsThen in Hin.
    apply in_map_iff in Hin as (line & <- & _).
    apply trim_occurs, removeGrpAndColons_no_colon.
  - intros k H. unfold getKeygripsThen.
    rewrite (keygripRecord_line k H). cbn [filter].
    assert (S : startsWith (keygripRecord k) "grp" = true)
      by exact (startsWith_append "grp" (":::::::::" ++ k ++ ":")).
    rewrite S. cbn [map]. f_equal.
    assert (R : removeGrpAndColons (keygripRecord k)
                = removeGrpAndColons (k ++ ":")) by reflexivity.
    rewrite R, (removeGrpAndColons_upperHex k H).
    destruct (upperHex_edges k H) as (Hf & Hl). now apply trim_id.
Qed.

Lemma keygrips_are_read_from_colon_records_witness :
  getKeygripsThen
    (mkExecOutput 0 (keygripRecord "27E7B1C0A4D53E9F8B1D6C2A3F4E5D6C7B8A9F01") "")
  = ["27E7B1C0A4D53E9F8B1D6C2A3F4E5D6C7B8A9F01"].
Proof.
  destruct keygrips_are_read_from_colon_records as (_ & H).
  apply H. vm_compute. reflexivity.
Defined.

(** X17 -- What the import reader takes for a failure.  It throws exactly
    when there is error text together with a non-zero exit code, and then
    throws that text.  Error text with exit code zero is returned, trimmed,
    as the answer; without error text the trimmed output is returned,
    whatever the exit code. *)
Theorem import_reader_failure :
  forall res,
    (isReturn (importKeyThen res) = false <->
     stderr res <> "" /\ exitCode res <> 0)
    /\ (stderr res <> "" -> exitCode res <> 0 ->
        importKeyThen res = Throw (mkError (stderr res)))
    /\ (stderr res <> "" -> exitCode res = 0 ->
        importKeyThen res = Return (trim (stderr res)))
    /\ (stderr res = "" -> importKeyThen res = Return (trim (stdout res))).
Proof.
  intros [code out err]. unfold importKeyThen, failedWithMessage.
  cbn [stderr stdout exitCode].
  destruct err as [|c err]; cbn [String.length Nat.ltb Nat.leb andb negb String.eqb].
  - intuition (try congruence; try discriminate).
  - destruct code as [|code]; cbn [Nat.eqb negb isReturn];
      intuition (try congruence; try discriminate; try lia).
Qed.

Lemma import_reader_failure_witness :
  importKeyThen (mkExecOutput 2 "gpg: key imported" "")
  = Return "gpg: key imported".
Proof.
  destruct (import_reader_failure (mkExecOutput 2 "gpg: key imported" ""))
    as (_ & _ & _ & H).
  apply H. reflexivity.
Defined.

Lemma isUpperHex_append (a b : string) :
  isUpperHex (a ++ b) = isUpperHex a && isUpperHex b.
Proof.
  induction a as [|c a IH]; simpl; [reflexivity|].
  now rewrite IH, andb_assoc.
Qed.

Lemma upperHexOfBytes_append (a b : list nat) :
  upperHexOfBytes (a ++ b)%list = upperHexOfBytes a ++ upperHexOfBytes b.
Proof.
  induction a as [|x a IH]; simpl; [reflexivity | now rewrite IH].
Qed.

Lemma utf8_upperHex (c : ascii) : isUpperHex (upperHexOfBytes (utf8 c)) = true.
Proof.
  destruct c as [[|] [|] [|] [|] [|] [|] [|] [|]]; vm_compute; reflexivity.
Qed.

Lemma length_append_string (a b : string) :
  String.length (a ++ b) = String.length a + String.length b.
Proof.
  induction a as [|c a IH]; simpl; [reflexivity | now rewrite IH].
Qed.

Lemma upperHexOfBytes_length (bs : list nat) :
  String.length (upperHexOfBytes bs) = 2 * List.length bs.
Proof.
  induction bs as [|b bs IH]; simpl; [reflexivity|]. rewrite IH. lia.
Qed.

(** X18 -- The passphrase reaches the agent as upper-case hexadecimal.
    Whatever the passphrase, its encoding consists of the digits 0-9 and
    A-F only, two for each byte, so it brings neither a space nor a double
    quote into the agent command; and the command is the preset verb, the
    keygrip, the timeout -1 and that encoding. *)
Theorem passphrase_is_sent_as_hex :
  forall keygrip passphrase,
    isUpperHex (hexPassphrase passphrase) = true
    /\ String.length (hexPassphrase passphrase)
       = 2 * List.length (utf8Bytes passphrase)
    /\ occurs " " (hexPassphrase passphrase) = false
    /\ occurs (ascii_of_nat 34) (hexPassphrase passphrase) = false
    /\ endsWith (presetPassphraseCommand keygrip passphrase)
         (" -1 " ++ hexPassphrase passphrase) = true.
Proof.
  intros keygrip passphrase.
  assert (H : isUpperHex (hexPassphrase passphrase) = true).
  { unfold hexPassphrase. induction passphrase as [|c p IH]; [reflexivity|].
    cbn [utf8Bytes]. rewrite upperHexOfBytes_append, isUpperHex_append.
    now rewrite utf8_upperHex, IH. }
  repeat apply conj.
  - exact H.
  - apply upperHexOfBytes_length.
  - exact (upperHex_occurs " " _ eq_refl H).
  - exact (upperHex_occurs (ascii_of_nat 34) _ eq_refl H).
  - unfold presetPassphraseCommand.
    apply endsWith_append_left, endsWith_append_left.
    destruct (" -1 " ++ hexPassphrase passphrase) eqn:E; simpl;
      now rewrite ?String.eqb_refl, ?Ascii.eqb_refl.
Qed.

End GpgKeys.

(* ------------------------------------------------------------------ *)
(** ** When queue names do not collide *)

Lemma written_git (q : Queue) (lines : list string) (o : CommitOptions)
    (ms : list StoredMessage) :
  exists rh,
    git (written q lines o ms)
    = withRemoteHistory rh
        (withHistory (newCommit lines (forSimpleGit o) (git q) :: history (git q))
           (git q)).
Proof.
  unfold written.
  destruct (push_cases
              (withStoredMessages ms
                 (withGit (snd (SimpleGit.commit lines (forSimpleGit o) (git q))) q)))
    as [-> | ->].
  - now exists (remote_history (git q)).
  - eexists. reflexivity.
Qed.

Lemma observedEvents_skip (n dir : string) (g : Git) (nc : DefaultLogFields)
    (rh : list DefaultLogFields) :
  endsWith (message nc) n = false ->
  observedEvents n dir (withRemoteHistory rh (withHistory (nc :: history g) g))
  = observedEvents n dir g.
Proof.
  intros B.
  unfold observedEvents, create, loadMessagesFromGit, readMessages, log,
    checkIsRepo, status.
  cbn [git isRepo log_fault history current withRemoteHistory withHistory].
  destruct (isRepo g); cbn [negb]; [|reflexivity].
  destruct (log_fault g) as [e|]; [now destruct (includes _ _)|].
  assert (F : forall h,
             filter (commitBelongsToQueue
                       (mkQueue n dir
                          (withRemoteHistory rh (withHistory (nc :: history g) g)) []))
               (nc :: h)
             = filter (commitBelongsToQueue (mkQueue n dir g [])) h).
  { intros h. cbn [filter]. unfold commitBelongsToQueue at 1. cbn [name].
    rewrite B. reflexivity. }
  rewrite F.
  destruct (history g) as [|c0 h].
  - cbn [error_message filter mapOutcome]. rewrite includes_refl. reflexivity.
  - destruct (mapOutcome _ _) as [ms|e]; [reflexivity|].
    destruct (includes _ _); reflexivity.
Qed.

(** X19 -- Queue names collide only through suffixes.  After a
    [createJob] or a [markJobAsDone] that returned on one queue, a queue
    whose name is not a suffix of the subject just written observes, when
    created on the repository, exactly the events (or the error) it would
    have observed before the write. *)
Theorem writes_invisible_unless_suffix :
  forall qa p o c qa' n dir,
    (createJob p o qa = (Return c, qa')
     /\ endsWith (CREATE_JOB_SUBJECT_PREFIX ++ name qa) n = false)
    \/ (markJobAsDone p o qa = (Return c, qa')
        /\ endsWith (MARK_JOB_AS_DONE_SUBJECT_PREFIX ++ name qa) n = false) ->
    observedEvents n dir (git qa') = observedEvents n dir (git qa).
Proof.
  intros qa p o c qa' n dir [(H & B) | (H & B)].
  - apply createJob_return in H as (_ & _ & [-> | (_ & _ & ms & _ & ->)]).
    + destruct (written_git qa (claimLines qa p) o (storedMessages qa)) as (rh & ->).
      now apply observedEvents_skip.
    + unfold claimed.
      destruct (written_git qa (claimLines qa p) o
                  (StoredCreateJobMessage (claimCommit qa p o) :: ms)) as (rh & ->).
      now apply observedEvents_skip.
  - apply markJobAsDone_return in H as (_ & _ & [-> | (_ & _ & ms & _ & ->)]).
    + destruct (written_git qa (releaseLines qa p) o (storedMessages qa)) as (rh & ->).
      now apply observedEvents_skip.
    + unfold released.
      destruct (written_git qa (releaseLines qa p) o
                  (StoredMarkJobAsDoneMessage (releaseCommit qa p o) :: ms))
        as (rh & ->).
      now apply observedEvents_skip.
Qed.

Lemma writes_invisible_unless_suffix_witness :
  observedEvents "deploy" "/repo" (git (snd Samples.afterNightlyClaim)) = Return [].
Proof.
  rewrite (writes_invisible_unless_suffix Samples.nightlyQueue "job-for-nightly"
             Samples.unsignedOptions (mkCommit "1a5f")
             (snd Samples.afterNightlyClaim) "deploy" "/repo").
  - reflexivity.
  - left. split; vm_compute; reflexivity.
Defined.
